(** * Photo album back end: label indexing and label search

    A shallow embedding of the two Lambda functions of the repository,

    - [backend/index-photos/index.py]   (module [IndexPhotos]),
    - [backend/search-photos/lambda_function.py] (module [SearchPhotos]),

    together with the Python built-ins they rely on (module [Py]).

    Strings are modelled by [string], i.e. sequences of 8-bit characters.
    The embedding follows Python on ASCII text: [lower] touches only
    [A-Z], white space is the ASCII white space of [str.isspace], and the
    percent-coding functions work on single bytes.  JSON numbers are
    integers.

    Calls that leave a Lambda function (Rekognition, S3, Lex, the clock,
    the credentials of the session, [urlopen]) are answered by a world
    that is threaded through the run, and every call is recorded in a
    trace.  Python exceptions are the [Raise] outcome of a computation;
    [try ... except Exception] is [try_except]. *)

From Stdlib Require Import ZArith List Bool Ascii String Lia Sorted.
From stdpp Require Import base gmap strings list fin_maps.

Import ListNotations.
Open Scope string_scope.

(* ===================================================================== *)
(** * Python built-ins *)
(* ===================================================================== *)

Module Py.

(** ** Characters *)

Definition code (c : ascii) : nat := nat_of_ascii c.

Definition between (lo hi : nat) (c : ascii) : bool :=
  Nat.leb lo (code c) && Nat.leb (code c) hi.

Definition is_upper (c : ascii) : bool := between 65 90 c.
Definition is_lower_letter (c : ascii) : bool := between 97 122 c.
Definition is_digit (c : ascii) : bool := between 48 57 c.

(** [str.isspace] on one ASCII character: TAB, LF, VT, FF, CR, the four
    separators 0x1c-0x1f and the space. *)
Definition is_space (c : ascii) : bool :=
  between 9 13 c || between 28 32 c.

Definition lower_char (c : ascii) : ascii :=
  if is_upper c then ascii_of_nat (code c + 32) else c.

(** ** [str.lower], [str.strip], [str.split] *)

Fixpoint lower (s : string) : string :=
  match s with
  | EmptyString => EmptyString
  | String c s' => String (lower_char c) (lower s')
  end.

Fixpoint lstrip (s : string) : string :=
  match s with
  | EmptyString => EmptyString
  | String c s' => if is_space c then lstrip s' else s
  end.

Fixpoint rstrip (s : string) : string :=
  match s with
  | EmptyString => EmptyString
  | String c s' =>
      match rstrip s' with
      | EmptyString => if is_space c then EmptyString else String c EmptyString
      | r => String c r
      end
  end.

Definition strip (s : string) : string := rstrip (lstrip s).

(** A string is blank when it is empty or consists of white space only. *)
Fixpoint blank (s : string) : bool :=
  match s with
  | EmptyString => true
  | String c s' => is_space c && blank s'
  end.

(** Truth value of a string: [bool(s)]. *)
Definition nonempty (s : string) : bool :=
  match s with EmptyString => false | _ => true end.

(** [s.split(sep)] for a one-character separator: never returns [[]]. *)
Fixpoint split_on (sep : ascii) (s : string) : list string :=
  match s with
  | EmptyString => [EmptyString]
  | String c s' =>
      if Ascii.eqb c sep then EmptyString :: split_on sep s'
      else match split_on sep s' with
           | h :: t => String c h :: t
           | [] => [String c EmptyString]
           end
  end.

(** [s.split()]: the maximal runs of non-space characters, in order. *)
Fixpoint split (s : string) : list string :=
  match s with
  | EmptyString => []
  | String c s' =>
      if is_space c then split s'
      else match s' with
           | EmptyString => [String c EmptyString]
           | String c' _ =>
               if is_space c' then String c EmptyString :: split s'
               else match split s' with
                    | h :: t => String c h :: t
                    | [] => [String c EmptyString]
                    end
           end
  end.

(** ** Lists of strings: [in], [set], [sorted], [dict.fromkeys] *)

Definition mem (x : string) (l : list string) : bool :=
  existsb (String.eqb x) l.

(** [list(dict.fromkeys(l))]: duplicates removed, first occurrence kept. *)
Fixpoint fromkeys_aux (seen l : list string) : list string :=
  match l with
  | [] => []
  | x :: t => if mem x seen then fromkeys_aux seen t
              else x :: fromkeys_aux (x :: seen) t
  end.

Definition fromkeys (l : list string) : list string := fromkeys_aux [] l.

(** Lexicographic order on code units, the order of [sorted] on [str]. *)
Fixpoint str_ltb (a b : string) : bool :=
  match a, b with
  | EmptyString, EmptyString => false
  | EmptyString, String _ _ => true
  | String _ _, EmptyString => false
  | String x a', String y b' =>
      if Nat.ltb (code x) (code y) then true
      else if Nat.ltb (code y) (code x) then false
      else str_ltb a' b'
  end.

Definition str_lt (a b : string) : Prop := str_ltb a b = true.

(** [sorted(set(l))] is the strictly increasing list of the distinct
    elements of [l]; it is built here by ordered insertion. *)
Fixpoint insert_set (x : string) (l : list string) : list string :=
  match l with
  | [] => [x]
  | y :: t =>
      if str_ltb x y then x :: l
      else if str_ltb y x then y :: insert_set x t
      else l
  end.

Definition sorted_set (l : list string) : list string :=
  fold_right insert_set [] l.

(** ** [urllib.parse.quote] and [urllib.parse.unquote_plus] *)

Definition always_safe (c : ascii) : bool :=
  is_upper c || is_lower_letter c || is_digit c ||
  Ascii.eqb c "_" || Ascii.eqb c "." || Ascii.eqb c "-" || Ascii.eqb c "~".

Fixpoint char_in (c : ascii) (s : string) : bool :=
  match s with
  | EmptyString => false
  | String d s' => Ascii.eqb c d || char_in c s'
  end.

Definition hex_digit (n : nat) : ascii :=
  if Nat.ltb n 10 then ascii_of_nat (48 + n) else ascii_of_nat (55 + n).

Fixpoint quote (safe : string) (s : string) : string :=
  match s with
  | EmptyString => EmptyString
  | String c s' =>
      if always_safe c || char_in c safe then String c (quote safe s')
      else String "%" (String (hex_digit (code c / 16))
                         (String (hex_digit (code c mod 16)) (quote safe s')))
  end.

Definition hex_value (c : ascii) : option nat :=
  if is_digit c then Some (code c - 48)
  else if between 65 70 c then Some (code c - 55)
  else if between 97 102 c then Some (code c - 87)
  else None.

(** [unquote]: every [%XY] with two hexadecimal digits becomes one
    character; any other [%] stays. *)
Fixpoint unquote (s : string) : string :=
  match s with
  | EmptyString => EmptyString
  | String c s' =>
      if Ascii.eqb c "%" then
        match s' with
        | String h1 (String h2 s'') =>
            match hex_value h1, hex_value h2 with
            | Some a, Some b => String (ascii_of_nat (16 * a + b)) (unquote s'')
            | _, _ => String c (unquote s')
            end
        | _ => String c (unquote s')
        end
      else String c (unquote s')
  end.

Fixpoint plus_to_space (s : string) : string :=
  match s with
  | EmptyString => EmptyString
  | String c s' =>
      String (if Ascii.eqb c "+" then " "%char else c) (plus_to_space s')
  end.

Definition unquote_plus (s : string) : string := unquote (plus_to_space s).

(** ** Python values as they come out of JSON and of the AWS clients *)

#[local] Set Warnings "-register-all".
Inductive json : Type :=
| JNull
| JBool (b : bool)
| JNum (z : Z)
| JStr (s : string)
| JArr (l : list json)
| JObj (d : list (string * json)).
#[local] Set Warnings "register-all".

(** Exceptions that the modelled code can meet.  [ServiceError] stands
    for whatever an AWS client raises, [HTTPError] for [urlopen] on a
    transport failure or a status outside 2xx. *)
Inductive exn : Type :=
| AttributeError | KeyError | TypeError | JSONDecodeError
| ServiceError | CredentialsError | HTTPError.

Inductive result (A : Type) : Type :=
| Ok (a : A)
| Raise (e : exn).
Arguments Ok {A} a.
Arguments Raise {A} e.

Definition rbind {A B} (r : result A) (k : A -> result B) : result B :=
  match r with Ok a => k a | Raise e => Raise e end.

Fixpoint rmap {A B} (f : A -> result B) (l : list A) : result (list B) :=
  match l with
  | [] => Ok []
  | x :: t => rbind (f x) (fun y => rbind (rmap f t) (fun ys => Ok (y :: ys)))
  end.

(** [bool(v)] *)
Definition truthy (v : json) : bool :=
  match v with
  | JNull => false
  | JBool b => b
  | JNum z => negb (Z.eqb z 0)
  | JStr s => nonempty s
  | JArr l => match l with [] => false | _ => true end
  | JObj d => match d with [] => false | _ => true end
  end.

(** Dictionary lookup; the keys of a [dict] are distinct. *)
Fixpoint dict_get (k : string) (d : list (string * json)) : option json :=
  match d with
  | [] => None
  | (k', v) :: t => if String.eqb k k' then Some v else dict_get k t
  end.

Definition has_key (k : string) (d : list (string * json)) : bool :=
  match dict_get k d with Some _ => true | None => false end.

Definition is_str (k : string) (v : json) : bool :=
  match v with JStr s => String.eqb k s | _ => false end.

Fixpoint substring_of (k s : string) : bool :=
  String.prefix k s ||
  match s with
  | EmptyString => false
  | String _ s' => substring_of k s'
  end.

Fixpoint chars (s : string) : list json :=
  match s with
  | EmptyString => []
  | String c s' => JStr (String c EmptyString) :: chars s'
  end.

(** [k in v] for a string [k] *)
Definition contains (k : string) (v : json) : result bool :=
  match v with
  | JObj d => Ok (has_key k d)
  | JArr l => Ok (existsb (is_str k) l)
  | JStr s => Ok (substring_of k s)
  | _ => Raise TypeError
  end.

(** [v.get(k, default)] *)
Definition get (v : json) (k : string) (default : json) : result json :=
  match v with
  | JObj d => Ok (match dict_get k d with Some x => x | None => default end)
  | _ => Raise AttributeError
  end.

(** [v[k]] for a string [k] *)
Definition getitem (v : json) (k : string) : result json :=
  match v with
  | JObj d => match dict_get k d with Some x => Ok x | None => Raise KeyError end
  | _ => Raise TypeError
  end.

(** [v.items()] *)
Definition items (v : json) : result (list (string * json)) :=
  match v with
  | JObj d => Ok d
  | _ => Raise AttributeError
  end.

(** The elements a [for] loop over [v] visits. *)
Definition iter (v : json) : result (list json) :=
  match v with
  | JArr l => Ok l
  | JObj d => Ok (map (fun kv => JStr (fst kv)) d)
  | JStr s => Ok (chars s)
  | _ => Raise TypeError
  end.

(** [v.lower()] *)
Definition lower_of (v : json) : result string :=
  match v with
  | JStr s => Ok (lower s)
  | _ => Raise AttributeError
  end.

(** [v.split(',')] *)
Definition split_comma_of (v : json) : result (list string) :=
  match v with
  | JStr s => Ok (split_on "," s)
  | _ => Raise AttributeError
  end.

(** [urllib.parse.quote(v, safe)]: only [str] is accepted here. *)
Definition quote_of (safe : string) (v : json) : result string :=
  match v with
  | JStr s => Ok (quote safe s)
  | _ => Raise TypeError
  end.

Definition strs (l : list string) : json := JArr (map JStr l).

End Py.

(* ===================================================================== *)
(** * Effects: external services, exceptions and the call trace *)
(* ===================================================================== *)

Module Eff.
Import Py.

(** One entry per call that leaves the Lambda function. *)
Inductive Event : Type :=
| EvDetectLabels (bucket key : string)
| EvHeadObject (bucket key : string)
| EvUtcNow
| EvRecognizeText (text : string)
| EvCredentials (method url : string)
| EvUrlopen (method url : string) (body : json).

Definition is_index_call (e : Event) : bool :=
  match e with
  | EvCredentials _ _ | EvUrlopen _ _ _ => true
  | _ => false
  end.

Definition is_nlu_call (e : Event) : bool :=
  match e with EvRecognizeText _ => true | _ => false end.

Section Monad.
Context {W : Type}.

(** The state threaded through a run: the outside world and the calls
    made so far, oldest first. *)
Definition state : Type := W * list Event.

Definition M (A : Type) : Type := state -> result A * state.

Definition ret {A} (a : A) : M A := fun s => (Ok a, s).

Definition raise {A} (e : exn) : M A := fun s => (Raise e, s).

Definition bind {A B} (m : M A) (k : A -> M B) : M B :=
  fun s => match m s with
           | (Ok a, s') => k a s'
           | (Raise e, s') => (Raise e, s')
           end.

(** [try: m except Exception as e: h e] *)
Definition try_except {A} (m : M A) (h : exn -> M A) : M A :=
  fun s => match m s with
           | (Ok a, s') => (Ok a, s')
           | (Raise e, s') => h e s'
           end.

Definition lift {A} (r : result A) : M A := fun s => (r, s).

(** A call to an external service: it is logged, then answered by the
    world, which may change. *)
Definition call {A} (ev : Event) (f : W -> result A * W) : M A :=
  fun s => let (r, w') := f (fst s) in (r, (w', (snd s ++ [ev])%list)).

End Monad.

Arguments state W : clear implicits.
Arguments M W A : clear implicits.

End Eff.

Notation "'let*' x ':=' c1 'in' c2" := (Eff.bind c1 (fun x => c2))
  (at level 10, x pattern, c1 at level 100, c2 at level 200).
Notation "'let+' x ':=' c1 'in' c2" := (Py.rbind c1 (fun x => c2))
  (at level 10, x pattern, c1 at level 100, c2 at level 200).

(** What a Lambda function hands back.  [body] is the value that the
    code passes to [json.dumps]; [headers] is empty when the returned
    dictionary has no such entry. *)
Record response : Type := {
  statusCode : Z;
  body : Py.json;
  headers : list (string * string)
}.

(* ===================================================================== *)
(** * index-photos/index.py *)
(* ===================================================================== *)

Module IndexPhotos.
Import Py Eff.

(** The clients of the module ([rekognition], [s3], the credentials of
    the boto3 session with the SigV4 signer, [urlopen]) and the clock. *)
Record Services (W : Type) : Type := {
  detect_labels : string -> string -> W -> result json * W;
  head_object : string -> string -> W -> result json * W;
  utcnow_isoformat : W -> string * W;
  sigv4_headers : string -> string -> json -> W -> result (list (string * string)) * W;
  urlopen : string -> string -> json -> list (string * string) -> W -> result string * W
}.
Arguments detect_labels {W}.
Arguments head_object {W}.
Arguments utcnow_isoformat {W}.
Arguments sigv4_headers {W}.
Arguments urlopen {W}.

(** One entry of [event['Records']]: [record['s3']['bucket']['name']] and
    [record['s3']['object']['key']]. *)
Record s3_record : Type := {
  bucket_name : string;
  object_key : string
}.

Section Lambda.
Context {W : Type} (svc : Services W).
(** [ES_ENDPOINT] (trailing slashes already removed) and [ES_INDEX]. *)
Variables (ES_ENDPOINT ES_INDEX : string).

Definition sign_and_send_es (method path : string) (body_dict : json) : M W json :=
  let url := ES_ENDPOINT ++ path in
  let* signed_headers :=
    call (EvCredentials method url) (sigv4_headers svc method url body_dict) in
  let* resp_body :=
    call (EvUrlopen method url body_dict) (urlopen svc method url body_dict signed_headers) in
  ret JNull.

(** The body of the [try] in [get_labels_from_rekognition], after the
    client has answered. *)
Definition rekognition_names (response : json) : result (list string) :=
  let+ labels := get response "Labels" (JArr []) in
  let+ lbls := iter labels in
  rmap (fun lbl => let+ name := getitem lbl "Name" in lower_of name) lbls.

Definition get_labels_from_rekognition (bucket key : string) : M W (list string) :=
  try_except
    (let* response := call (EvDetectLabels bucket key) (detect_labels svc bucket key) in
     lift (rekognition_names response))
    (fun _ => ret []).

Definition strip_lower_nonempty (parts : list string) : list string :=
  map (fun label => lower (strip label))
      (List.filter (fun label => nonempty (strip label)) parts).

(** The body of the [try] in [get_custom_labels], after the client has
    answered. *)
Definition custom_names (head : json) : result (list string) :=
  let+ metadata := get head "Metadata" (JObj []) in
  let+ raw := get metadata "customlabels" JNull in
  if negb (truthy raw) then Ok []
  else let+ parts := split_comma_of raw in
       Ok (strip_lower_nonempty parts).

Definition get_custom_labels (bucket key : string) : M W (list string) :=
  try_except
    (let* head := call (EvHeadObject bucket key) (head_object svc bucket key) in
     lift (custom_names head))
    (fun _ => ret []).

(** [sorted(set(auto_labels + custom_labels))] *)
Definition all_labels (auto_labels custom_labels : list string) : list string :=
  sorted_set (auto_labels ++ custom_labels)%list.

Definition document (key bucket created : string) (all_labels : list string) : json :=
  JObj [("objectKey", JStr key);
        ("bucket", JStr bucket);
        ("createdTimestamp", JStr created);
        ("labels", strs all_labels)].

Definition doc_path (key : string) : string :=
  "/" ++ ES_INDEX ++ "/_doc/" ++ quote "" key.

(** The body of the [for] loop of [handler]. *)
Definition process_record (record : s3_record) : M W unit :=
  let bucket := bucket_name record in
  let key := unquote_plus (object_key record) in
  let* auto_labels := get_labels_from_rekognition bucket key in
  let* custom_labels := get_custom_labels bucket key in
  let all_labels := all_labels auto_labels custom_labels in
  let* created := call EvUtcNow (fun w => let (t, w') := utcnow_isoformat svc w in (Ok t, w')) in
  let doc := document key bucket created all_labels in
  try_except
    (let* _ := sign_and_send_es "PUT" (doc_path key) doc in ret tt)
    (fun _ => ret tt).

Fixpoint for_each (records : list s3_record) : M W unit :=
  match records with
  | [] => ret tt
  | record :: rest => let* _ := process_record record in for_each rest
  end.

Definition ok_response : response :=
  {| statusCode := 200; body := JObj [("message", JStr "OK")]; headers := [] |}.

Definition handler (records : list s3_record) : M W response :=
  let* _ := for_each records in
  ret ok_response.

End Lambda.

(** What [get_labels_from_rekognition] and [get_custom_labels] return for
    a given answer of their client. *)
Definition auto_labels_of (answer : result json) : list string :=
  match rbind answer rekognition_names with
  | Ok labels => labels
  | Raise _ => []
  end.

Definition custom_labels_of (answer : result json) : list string :=
  match rbind answer custom_names with
  | Ok labels => labels
  | Raise _ => []
  end.

Definition lowercase (s : string) : Prop := lower s = s.

Definition not_blank (s : string) : Prop := blank s = false.

(** The invariant of a label set: no duplicates, no empty or
    white-space-only entry, every entry in lower case. *)
Definition LabelSet (labels : list string) : Prop :=
  List.NoDup labels /\ Forall not_blank labels /\ Forall lowercase labels.

(** The upsert attempts of a trace, as (method, URL), in order: one
    entry per call of [sign_and_send_es], logged when the credentials
    are fetched, whether or not the HTTP request follows. *)
Definition index_requests (trace : list Event) : list (string * string) :=
  flat_map (fun e => match e with
                     | EvCredentials m u => [(m, u)]
                     | _ => []
                     end) trace.

Definition detector_requests (trace : list Event) : list (string * string) :=
  flat_map (fun e => match e with
                     | EvDetectLabels b k => [(b, k)]
                     | _ => []
                     end) trace.

Section Runs.
Context {W : Type} (svc : Services W).
Variables (ES_ENDPOINT ES_INDEX : string).

(** The decoded key of a record and the URL of its document. *)
Definition key_of (record : s3_record) : string := unquote_plus (object_key record).

Definition doc_url (record : s3_record) : string :=
  ES_ENDPOINT ++ doc_path ES_INDEX (key_of record).

(** The document that [process_record] builds in the world [w]: the
    detector is asked first, then the metadata store, then the clock. *)
Definition document_in (record : s3_record) (w : W) : json :=
  let bucket := bucket_name record in
  let key := key_of record in
  let (detected, w1) := detect_labels svc bucket key w in
  let (head, w2) := head_object svc bucket key w1 in
  let (created, _) := utcnow_isoformat svc w2 in
  document key bucket created (all_labels (auto_labels_of detected) (custom_labels_of head)).

(** The world in which the document is sent. *)
Definition world_before_send (record : s3_record) (w : W) : W :=
  let bucket := bucket_name record in
  let key := key_of record in
  let (_, w1) := detect_labels svc bucket key w in
  let (_, w2) := head_object svc bucket key w1 in
  let (_, w3) := utcnow_isoformat svc w2 in
  w3.

Definition lookups (record : s3_record) : list Event :=
  [EvDetectLabels (bucket_name record) (key_of record);
   EvHeadObject (bucket_name record) (key_of record);
   EvUtcNow].

End Runs.
End IndexPhotos.

(* ===================================================================== *)
(** * search-photos/lambda_function.py *)
(* ===================================================================== *)

Module SearchPhotos.
Import Py Eff.

(** The clients of the module: the Lex V2 runtime, the credentials of the
    boto3 session with the SigV4 signer, and [urlopen]. *)
Record Services (W : Type) : Type := {
  recognize_text : string -> W -> result json * W;
  sigv4_headers : string -> string -> json -> W -> result (list (string * string)) * W;
  urlopen : string -> string -> json -> list (string * string) -> W -> result string * W
}.
Arguments recognize_text {W}.
Arguments sigv4_headers {W}.
Arguments urlopen {W}.

Section Lambda.
Context {W : Type} (svc : Services W).
(** [ES_ENDPOINT] (trailing slashes already removed) and [ES_INDEX]. *)
Variables (ES_ENDPOINT ES_INDEX : string).
(** [json.loads], and [str] as an f-string applies it to a value that is
    not a string. *)
Variable json_loads : string -> result json.
Variable str : json -> string.

Definition sign_and_send_es (method path : string) (body_dict : json) : M W json :=
  let url := ES_ENDPOINT ++ path in
  let* signed_headers :=
    call (EvCredentials method url) (sigv4_headers svc method url body_dict) in
  let* resp_body :=
    call (EvUrlopen method url body_dict) (urlopen svc method url body_dict signed_headers) in
  lift (json_loads resp_body).

Definition stop : list string := ["show"; "me"; "photos"; "with"; "and"; "in"].

(** [[t for t in query_lc.split() if t not in stop]] *)
Definition tokens_not_in_stop (query_lc : string) : list string :=
  List.filter (fun t => negb (mem t stop)) (split query_lc).

(** The body of the inner loop: what one slot appends to [labels]. *)
Definition slot_labels (slot_val : json) : result (list string) :=
  if truthy slot_val then
    let+ has_value := contains "value" slot_val in
    if (has_value : bool) then
      let+ value := getitem slot_val "value" in
      let+ interpreted := getitem value "interpretedValue" in
      let+ label := lower_of interpreted in
      Ok [label]
    else Ok []
  else Ok [].

Definition interp_labels (interp : json) : result (list string) :=
  let+ intent := get interp "intent" (JObj []) in
  let+ slots := get intent "slots" (JObj []) in
  let+ slot_items := items slots in
  let+ per_slot := rmap (fun kv => slot_labels (snd kv)) slot_items in
  Ok (concat per_slot).

(** [labels] after the two nested loops over the answer of Lex. *)
Definition lex_labels (response : json) : result (list string) :=
  let+ interpreted := get response "interpretations" (JArr []) in
  let+ interps := iter interpreted in
  let+ per_interp := rmap interp_labels interps in
  Ok (concat per_interp).

Definition extract_labels_from_lex (query : json) : M W (list string) :=
  match query with
  | JStr text =>
      let query_lc := lower text in
      try_except
        (let* response := call (EvRecognizeText text) (recognize_text svc text) in
         let* labels := lift (lex_labels response) in
         let labels := match labels with
                       | [] => tokens_not_in_stop query_lc
                       | _ => labels
                       end in
         ret (fromkeys labels))
        (fun _ => ret (tokens_not_in_stop query_lc))
  | _ => raise AttributeError
  end.

Definition cors : list (string * string) := [("Access-Control-Allow-Origin", "*")].

Definition bad_request : response :=
  {| statusCode := 400;
     body := JObj [("error", JStr "Missing query parameter q")];
     headers := cors |}.

Definition ok_results (results : list json) : response :=
  {| statusCode := 200; body := JObj [("results", JArr results)]; headers := cors |}.

Definition search_error : response :=
  {| statusCode := 500; body := JObj [("results", JArr [])]; headers := cors |}.

Definition query_body (labels : list string) : json :=
  JObj [("query", JObj [("terms", JObj [("labels.keyword", strs labels)])])].

Definition es_path : string := "/" ++ ES_INDEX ++ "/_search".

Definition format_value (v : json) : string :=
  match v with JStr s => s | _ => str v end.

(** The body of the loop over the hits. *)
Definition hit_result (hit : json) : result json :=
  let+ src := getitem hit "_source" in
  let+ bucket := getitem src "bucket" in
  let+ object_key := getitem src "objectKey" in
  let+ quoted := quote_of "/" object_key in
  let url := "https://" ++ format_value bucket ++ ".s3.amazonaws.com/" ++ quoted in
  let+ labels := getitem src "labels" in
  Ok (JObj [("objectKey", object_key); ("bucket", bucket);
            ("labels", labels); ("url", JStr url)]).

Definition search_results (es_response : json) : result (list json) :=
  let+ outer := get es_response "hits" (JObj []) in
  let+ hits := get outer "hits" (JArr []) in
  let+ hit_list := iter hits in
  rmap hit_result hit_list.

(** The first lines of [lambda_handler]: the value of [q]. *)
Definition query_of (event : json) : result json :=
  let+ direct := contains "q" event in
  if (direct : bool) then getitem event "q"
  else
    let+ params := get event "queryStringParameters" JNull in
    if truthy params then
      let+ params' := getitem event "queryStringParameters" in
      get params' "q" JNull
    else Ok JNull.

(** The [try] block at the end of [lambda_handler]. *)
Definition run_search (labels : list string) : M W response :=
  try_except
    (let* es_response := sign_and_send_es "POST" es_path (query_body labels) in
     let* results := lift (search_results es_response) in
     ret (ok_results results))
    (fun _ => ret search_error).

Definition lambda_handler (event : json) : M W response :=
  let* q := lift (query_of event) in
  if negb (truthy q) then ret bad_request
  else
    let* labels := extract_labels_from_lex q in
    match labels with
    | [] => ret (ok_results [])
    | _ => run_search labels
    end.

End Lambda.

(** What [extract_labels_from_lex] returns for a query text and a given
    answer of Lex. *)
Definition labels_for (text : string) (answer : result json) : list string :=
  match rbind answer lex_labels with
  | Ok [] => fromkeys (tokens_not_in_stop (lower text))
  | Ok labels => fromkeys labels
  | Raise _ => tokens_not_in_stop (lower text)
  end.

(** The fallback tokenizer in the words of the specification: lowercase
    the query, split on white space, drop the stop words, keep the order,
    remove duplicates keeping the first occurrence. *)
Definition spec_stop_words : list string :=
  ["show"; "me"; "photos"; "with"; "and"; "in"].

Definition spec_tokenizer (query : string) : list string :=
  fromkeys (List.filter (fun t => negb (mem t spec_stop_words)) (split (lower query))).

(** A request without query text: no [q] on the event, and
    [queryStringParameters] absent, empty or without [q]. *)
Definition no_query_text (event : list (string * json)) : Prop :=
  dict_get "q" event = None /\
  match dict_get "queryStringParameters" event with
  | None => True
  | Some params =>
      truthy params = false \/
      exists ps, params = JObj ps /\ dict_get "q" ps = None
  end.

(** A request whose [q] is the empty string, on the event or in
    [queryStringParameters]. *)
Definition empty_query_text (event : list (string * json)) : Prop :=
  dict_get "q" event = Some (JStr EmptyString) \/
  (dict_get "q" event = None /\
   exists ps, dict_get "queryStringParameters" event = Some (JObj ps) /\
              dict_get "q" ps = Some (JStr EmptyString)).

End SearchPhotos.

(* ===================================================================== *)
(** * A reference environment *)
(* ===================================================================== *)

(** A small world in which both Lambda functions can be run: the
    detector, the metadata store and Lex answer from fixed tables, the
    clock advances by one tick per reading, and the index service stores
    the body of every [PUT] under its URL. *)
Module Sim.
Import Py Eff.

Record script : Type := {
  detector : string -> string -> result json;
  metadata : string -> string -> result json;
  stamp : nat -> string;
  credentials : result (list (string * string));
  put_status : string -> result string;
  lex : string -> result json;
  search_answer : result string
}.

Record world : Type := {
  ticks : nat;
  index : gmap string json
}.

Definition tick (w : world) : world :=
  {| ticks := S (ticks w); index := index w |}.

Definition store (url : string) (doc : json) (w : world) : world :=
  {| ticks := ticks w; index := <[url := doc]> (index w) |}.

(** A [PUT] that the service accepts replaces the document at [url]. *)
Definition http (sc : script) (method url : string) (body : json)
    (hs : list (string * string)) (w : world) : result string * world :=
  if String.eqb method "PUT" then
    match put_status sc url with
    | Ok answer => (Ok answer, store url body w)
    | Raise e => (Raise e, w)
    end
  else (search_answer sc, w).

Definition index_services (sc : script) : IndexPhotos.Services world :=
  {| IndexPhotos.detect_labels := fun b k w => (detector sc b k, w);
     IndexPhotos.head_object := fun b k w => (metadata sc b k, w);
     IndexPhotos.utcnow_isoformat := fun w => (stamp sc (ticks w), tick w);
     IndexPhotos.sigv4_headers := fun _ _ _ w => (credentials sc, w);
     IndexPhotos.urlopen := http sc |}.

Definition search_services (sc : script) : SearchPhotos.Services world :=
  {| SearchPhotos.recognize_text := fun text w => (lex sc text, w);
     SearchPhotos.sigv4_headers := fun _ _ _ w => (credentials sc, w);
     SearchPhotos.urlopen := http sc |}.

Definition start : world := {| ticks := 0; index := ∅ |}.

(** Answers of the detector and of the metadata store in their documented
    shape. *)
Definition labels_response (names : list string) : json :=
  JObj [("Labels", JArr (map (fun n => JObj [("Name", JStr n)]) names))].

Definition head_response (customlabels : string) : json :=
  JObj [("Metadata", JObj [("customlabels", JStr customlabels)])].

(** The document without its time stamp. *)
Definition without_timestamp (doc : json) : json :=
  match doc with
  | JObj d => JObj (List.filter (fun kv => negb (String.eqb (fst kv) "createdTimestamp")) d)
  | _ => doc
  end.

(** The world after one invocation of the indexing function. *)
Definition ingest (sc : script) (ES_ENDPOINT ES_INDEX : string)
    (records : list IndexPhotos.s3_record) (w : world) : world :=
  fst (snd (IndexPhotos.handler (index_services sc) ES_ENDPOINT ES_INDEX records (w, []))).

(** The document that the tables of [sc] give for a record at tick [n]. *)
Definition document_at (sc : script) (record : IndexPhotos.s3_record) (n : nat) : json :=
  let bucket := IndexPhotos.bucket_name record in
  let key := IndexPhotos.key_of record in
  IndexPhotos.document key bucket (stamp sc n)
    (IndexPhotos.all_labels (IndexPhotos.auto_labels_of (detector sc bucket key))
                            (IndexPhotos.custom_labels_of (metadata sc bucket key))).

(** Whether the index service takes the document of a record. *)
Definition accepted (sc : script) (url : string) : bool :=
  match credentials sc, put_status sc url with
  | Ok _, Ok _ => true
  | _, _ => false
  end.

(** The effect of one record on the world. *)
Definition step (sc : script) (ES_ENDPOINT ES_INDEX : string)
    (w : world) (record : IndexPhotos.s3_record) : world :=
  let url := IndexPhotos.doc_url ES_ENDPOINT ES_INDEX record in
  if accepted sc url then store url (document_at sc record (ticks w)) (tick w) else tick w.

End Sim.

(** ** A concrete scenario: one photo, a detector and a tag header *)

Module Scenario.
Import Py.

Definition endpoint : string := "https://search.example".

Definition photo : IndexPhotos.s3_record :=
  {| IndexPhotos.bucket_name := "b1"; IndexPhotos.object_key := "a+b.jpg" |}.

Definition is_photo (bucket key : string) : bool :=
  String.eqb bucket "b1" && String.eqb key "a b.jpg".

Definition script : Sim.script :=
  {| Sim.detector := fun b k =>
       if is_photo b k then Ok (Sim.labels_response ["Dog"; "Park"]) else Raise ServiceError;
     Sim.metadata := fun b k =>
       if is_photo b k then Ok (Sim.head_response "Sunny, dog") else Raise ServiceError;
     Sim.stamp := fun n =>
       "2024-05-01T10:00:0" ++ String (ascii_of_nat (48 + n mod 10)) EmptyString;
     Sim.credentials := Ok [];
     Sim.put_status := fun _ => Ok EmptyString;
     Sim.lex := fun _ => Raise ServiceError;
     Sim.search_answer := Raise HTTPError |}.

Definition photo_url : string := "https://search.example/photos/_doc/a%20b.jpg".

Definition photo_document (created : string) : json :=
  JObj [("objectKey", JStr "a b.jpg");
        ("bucket", JStr "b1");
        ("createdTimestamp", JStr created);
        ("labels", JArr [JStr "dog"; JStr "park"; JStr "sunny"])].

(** The document of the example as the specification prints it. *)
Definition printed_document : json :=
  JObj [("objectKey", JStr "a b.jpg");
        ("bucket", JStr "b1");
        ("labels", JArr [JStr "dog"; JStr "park"; JStr "sunny"])].

(** A service that answers every [PUT] and every search with the text
    of an empty JSON object, and what [json.loads] makes of that text. *)
Definition answering_script : Sim.script :=
  {| Sim.detector := Sim.detector script;
     Sim.metadata := Sim.metadata script;
     Sim.stamp := Sim.stamp script;
     Sim.credentials := Ok [];
     Sim.put_status := fun _ => Ok "{}";
     Sim.lex := fun _ => Raise ServiceError;
     Sim.search_answer := Ok "{}" |}.

Definition loads (text : string) : result json :=
  if String.eqb text "{}" then Ok (JObj []) else Raise JSONDecodeError.

(** Stands for [str] on a value that is not a string; no hit of the
    scenario has such a bucket. *)
Definition str (v : json) : string := "?".

(** A batch of three photos for a service that refuses the second: the
    detector knows only the first photo, and the index service answers
    the [PUT] of the second with an error. *)
Definition second : IndexPhotos.s3_record :=
  {| IndexPhotos.bucket_name := "b1"; IndexPhotos.object_key := "bad%2Fkey.png" |}.

Definition third : IndexPhotos.s3_record :=
  {| IndexPhotos.bucket_name := "b2"; IndexPhotos.object_key := "c.jpg" |}.

Definition flaky_script : Sim.script :=
  {| Sim.detector := Sim.detector script;
     Sim.metadata := Sim.metadata script;
     Sim.stamp := Sim.stamp script;
     Sim.credentials := Ok [];
     Sim.put_status := fun url =>
       if String.eqb url "https://search.example/photos/_doc/bad%2Fkey.png"
       then Raise HTTPError else Ok EmptyString;
     Sim.lex := fun _ => Raise ServiceError;
     Sim.search_answer := Raise HTTPError |}.

End Scenario.

(** ** Further vocabulary for statements about the two functions *)

Module Shape.
Import Py Eff.

(** Every character of [s] passes the test [p]. *)
Fixpoint all_chars (p : ascii -> bool) (s : string) : bool :=
  match s with
  | EmptyString => true
  | String c s' => p c && all_chars p s'
  end.

(** The characters [quote] lets through unchanged for an empty [safe],
    and the percent sign that starts an escape. *)
Definition unreserved_or_percent (c : ascii) : bool :=
  always_safe c || Ascii.eqb c "%".

Definition visible (c : ascii) : bool := negb (is_space c).

(** The HTTP requests of a trace, in order. *)
Definition http_requests (trace : list Event) : list (string * string * json) :=
  flat_map (fun e => match e with
                     | EvUrlopen m u b => [(m, u, b)]
                     | _ => []
                     end) trace.

(** An answer of the index service to a search, with the given hits. *)
Definition hits_response (hits : list json) : json :=
  JObj [("hits", JObj [("hits", JArr hits)])].

(** A hit whose [_source] is the document [doc]. *)
Definition hit_of (doc : json) : json := JObj [("_source", doc)].

(** What the search function shows of a photo. *)
Definition public_result (key bucket : string) (labels : json) : json :=
  JObj [("objectKey", JStr key);
        ("bucket", JStr bucket);
        ("labels", labels);
        ("url", JStr ("https://" ++ bucket ++ ".s3.amazonaws.com/" ++ quote "/" key))].

(** The traces a run of [lambda_handler] can add for a query [text]
    and the labels taken from it: nothing, the Lex call, the Lex call
    and the signing, or all three calls. *)
Definition search_url (ES_ENDPOINT ES_INDEX : string) : string :=
  ES_ENDPOINT ++ SearchPhotos.es_path ES_INDEX.

Inductive handler_calls (ES_ENDPOINT ES_INDEX : string) : list Event -> Prop :=
| calls_none : handler_calls ES_ENDPOINT ES_INDEX []
| calls_lex (text : string) :
    handler_calls ES_ENDPOINT ES_INDEX [EvRecognizeText text]
| calls_signing (text : string) :
    handler_calls ES_ENDPOINT ES_INDEX
      [EvRecognizeText text;
       EvCredentials "POST" (search_url ES_ENDPOINT ES_INDEX)]
| calls_search (text : string) (labels : list string) :
    handler_calls ES_ENDPOINT ES_INDEX
      [EvRecognizeText text;
       EvCredentials "POST" (search_url ES_ENDPOINT ES_INDEX);
       EvUrlopen "POST" (search_url ES_ENDPOINT ES_INDEX) (SearchPhotos.query_body labels)].

(** The entry [k] of a value that is an object. *)
Definition field (k : string) (v : json) : option json :=
  match v with
  | JObj d => dict_get k d
  | _ => None
  end.

(** A request is the upsert of one of the records: a [PUT] to the
    document URL of the record, whose body names the record's key and
    bucket. *)
Definition upsert_of (ES_ENDPOINT ES_INDEX : string)
    (records : list IndexPhotos.s3_record) (request : string * string * json) : Prop :=
  let '(method, url, doc) := request in
  method = "PUT" /\
  exists record,
    In record records /\
    url = IndexPhotos.doc_url ES_ENDPOINT ES_INDEX record /\
    field "objectKey" doc = Some (JStr (IndexPhotos.key_of record)) /\
    field "bucket" doc = Some (JStr (IndexPhotos.bucket_name record)).



End Shape.

(** ** Further scenarios *)

Module Cases.
Import Py.

(** A session without credentials: signing always fails. *)
Definition unsigned_script : Sim.script :=
  {| Sim.detector := Sim.detector Scenario.script;
     Sim.metadata := Sim.metadata Scenario.script;
     Sim.stamp := Sim.stamp Scenario.script;
     Sim.credentials := Raise CredentialsError;
     Sim.put_status := fun _ => Ok EmptyString;
     Sim.lex := fun _ => Raise ServiceError;
     Sim.search_answer := Raise HTTPError |}.

(** A detector answer in which the second label has no name. *)
Definition nameless_label : json := JObj [("Confidence", JNum 99)].

Definition broken_labels : list json :=
  [JObj [("Name", JStr "Dog")]; nameless_label; JObj [("Name", JStr "Park")]].

Definition broken_script : Sim.script :=
  {| Sim.detector := fun _ _ => Ok (JObj [("Labels", JArr broken_labels)]);
     Sim.metadata := Sim.metadata Scenario.script;
     Sim.stamp := Sim.stamp Scenario.script;
     Sim.credentials := Ok [];
     Sim.put_status := fun _ => Ok EmptyString;
     Sim.lex := fun _ => Raise ServiceError;
     Sim.search_answer := Raise HTTPError |}.

(** An answer of the index service with two hits, the second without
    [_source], as JSON text and as [json.loads] reads it. *)
Definition dq : string := String (ascii_of_nat 34) EmptyString.

Definition key_text (k : string) : string := dq ++ k ++ dq.

Definition hits_text : string :=
  "{" ++ key_text "hits" ++ ": {" ++ key_text "hits" ++ ": [{" ++
  key_text "_source" ++ ": {" ++
  key_text "objectKey" ++ ": " ++ key_text "a b.jpg" ++ ", " ++
  key_text "bucket" ++ ": " ++ key_text "b1" ++ ", " ++
  key_text "labels" ++ ": [" ++ key_text "dog" ++ "]}}, {" ++
  key_text "_id" ++ ": " ++ key_text "x" ++ "}]}}".

Definition good_hit : json :=
  JObj [("_source", JObj [("objectKey", JStr "a b.jpg");
                          ("bucket", JStr "b1");
                          ("labels", JArr [JStr "dog"])])].

Definition bad_hit : json := JObj [("_id", JStr "x")].

Definition hits_value : json :=
  JObj [("hits", JObj [("hits", JArr [good_hit; bad_hit])])].

Definition loads_hits (text : string) : result json :=
  if String.eqb text hits_text then Ok hits_value else Scenario.loads text.

Definition hits_script : Sim.script :=
  {| Sim.detector := Sim.detector Scenario.script;
     Sim.metadata := Sim.metadata Scenario.script;
     Sim.stamp := Sim.stamp Scenario.script;
     Sim.credentials := Ok [];
     Sim.put_status := fun _ => Ok EmptyString;
     Sim.lex := fun _ => Raise ServiceError;
     Sim.search_answer := Ok hits_text |}.

(** Lex answers with one interpretation whose slots name a dog twice. *)
Definition slot (value : string) : json :=
  JObj [("value", JObj [("interpretedValue", JStr value)])].

Definition lex_answer : json :=
  JObj [("interpretations",
         JArr [JObj [("intent",
                      JObj [("slots", JObj [("first", slot "Dog");
                                            ("second", JNull);
                                            ("third", slot "dog");
                                            ("fourth", slot "Park")])])]])].

Definition lex_script : Sim.script :=
  {| Sim.detector := Sim.detector Scenario.script;
     Sim.metadata := Sim.metadata Scenario.script;
     Sim.stamp := Sim.stamp Scenario.script;
     Sim.credentials := Ok [];
     Sim.put_status := fun _ => Ok EmptyString;
     Sim.lex := fun _ => Ok lex_answer;
     Sim.search_answer := Ok "{}" |}.

End Cases.

Example lower_ex : Py.lower "Sunny Day-7" = "sunny day-7".
Proof. reflexivity. Qed.

Example strip_ex : Py.strip "  a b  " = "a b".
Proof. reflexivity. Qed.

Example split_on_ex : Py.split_on "," "Sunny, dog,,x," = ["Sunny"; " dog"; ""; "x"; ""].
Proof. reflexivity. Qed.

Example split_ex : Py.split "  show me   dogs " = ["show"; "me"; "dogs"].
Proof. reflexivity. Qed.

Example fromkeys_ex : Py.fromkeys ["b"; "a"; "b"; "c"; "a"] = ["b"; "a"; "c"].
Proof. reflexivity. Qed.

Example sorted_set_ex : Py.sorted_set ["park"; "dog"; "sunny"; "dog"] = ["dog"; "park"; "sunny"].
Proof. reflexivity. Qed.

Example quote_ex : Py.quote "" "a b/c.jpg" = "a%20b%2Fc.jpg".
Proof. reflexivity. Qed.

Example quote_slash_ex : Py.quote "/" "a b/c.jpg" = "a%20b/c.jpg".
Proof. reflexivity. Qed.

Example unquote_plus_ex : Py.unquote_plus "a+b%2Fc%zz.jpg" = "a b/c%zz.jpg".
Proof. reflexivity. Qed.

(* ===================================================================== *)
(** * Facts about the built-ins *)
(* ===================================================================== *)

Module PyFacts.
Import Py.

Ltac by_cases_on_char c :=
  destruct c as [[] [] [] [] [] [] [] []]; reflexivity.

Lemma lower_char_idem (c : ascii) : lower_char (lower_char c) = lower_char c.
Proof. by_cases_on_char c. Qed.

Lemma is_space_lower_char (c : ascii) : is_space (lower_char c) = is_space c.
Proof. by_cases_on_char c. Qed.

Lemma lower_idem (s : string) : lower (lower s) = lower s.
Proof.
  induction s as [|c s IH]; simpl; [reflexivity|].
  now rewrite lower_char_idem, IH.
Qed.

Lemma blank_lower (s : string) : blank (lower s) = blank s.
Proof.
  induction s as [|c s IH]; simpl; [reflexivity|].
  now rewrite is_space_lower_char, IH.
Qed.

(** After [lstrip] a string is empty or starts with a visible character. *)
Lemma lstrip_shape (s : string) :
  lstrip s = EmptyString \/
  exists c r, lstrip s = String c r /\ is_space c = false.
Proof.
  induction s as [|c s IH]; simpl; [now left|].
  destruct (is_space c) eqn:E; [exact IH|].
  right. now exists c, s.
Qed.

Lemma rstrip_visible_head (c : ascii) (s : string) :
  is_space c = false -> exists r, rstrip (String c s) = String c r.
Proof.
  intros E. simpl. destruct (rstrip s) as [|d r].
  - rewrite E. now exists EmptyString.
  - now exists (String d r).
Qed.

Lemma strip_shape (s : string) :
  strip s = EmptyString \/
  exists c r, strip s = String c r /\ is_space c = false.
Proof.
  unfold strip. destruct (lstrip_shape s) as [E | (c & r & E & Hc)]; rewrite E.
  - now left.
  - right. destruct (rstrip_visible_head c r Hc) as [r' Hr].
    exists c, r'. now split.
Qed.

(** What [strip] leaves is never white space only. *)
Lemma strip_nonempty_not_blank (s : string) :
  nonempty (strip s) = true -> blank (strip s) = false.
Proof.
  destruct (strip_shape s) as [E | (c & r & E & Hc)]; rewrite E; simpl.
  - discriminate.
  - intros _. now rewrite Hc.
Qed.

(** ** The order of [sorted] *)

Lemma str_ltb_irrefl (a : string) : str_ltb a a = false.
Proof.
  induction a as [|c a IH]; simpl; [reflexivity|].
  now rewrite Nat.ltb_irrefl.
Qed.

Lemma str_ltb_trans (a b c : string) :
  str_ltb a b = true -> str_ltb b c = true -> str_ltb a c = true.
Proof.
  revert b c. induction a as [|x a IH]; intros [|y b] [|z c]; simpl; try easy.
  destruct (Nat.ltb_spec (code x) (code y)), (Nat.ltb_spec (code y) (code x)),
    (Nat.ltb_spec (code y) (code z)), (Nat.ltb_spec (code z) (code y)),
    (Nat.ltb_spec (code x) (code z)), (Nat.ltb_spec (code z) (code x));
    try easy; try lia.
  apply IH.
Qed.

Lemma code_inj (x y : ascii) : code x = code y -> x = y.
Proof.
  unfold code. intros E.
  rewrite <- (ascii_nat_embedding x), <- (ascii_nat_embedding y).
  now rewrite E.
Qed.

Lemma str_ltb_total (a b : string) :
  str_ltb a b = false -> str_ltb b a = false -> a = b.
Proof.
  revert b. induction a as [|x a IH]; intros [|y b]; simpl; try easy.
  destruct (Nat.ltb_spec (code x) (code y)), (Nat.ltb_spec (code y) (code x));
    try easy.
  intros Hab Hba. f_equal; [apply code_inj; lia | now apply IH].
Qed.

(** ** [sorted(set(l))] *)

Lemma insert_set_In (x z : string) (l : list string) :
  In z (insert_set x l) -> z = x \/ In z l.
Proof.
  induction l as [|y t IH]; simpl.
  - intros [<- | []]. now left.
  - destruct (str_ltb x y); [|destruct (str_ltb y x)]; simpl.
    + intros [<- | H]; [now left | now right].
    + intros [<- | H]; [right; now left|].
      destruct (IH H) as [-> | H']; [now left | right; now right].
    + intros H. now right.
Qed.

Lemma In_insert_set (x z : string) (l : list string) :
  z = x \/ In z l -> In z (insert_set x l).
Proof.
  induction l as [|y t IH]; simpl.
  - intros [-> | []]. now left.
  - destruct (str_ltb x y) eqn:Hxy; [|destruct (str_ltb y x) eqn:Hyx]; simpl.
    + intros [-> | H]; [now left | now right].
    + intros [-> | [-> | H]].
      * right. apply IH. now left.
      * now left.
      * right. apply IH. now right.
    + rewrite (str_ltb_total x y Hxy Hyx).
      intros [-> | H]; [now left | exact H].
Qed.

Lemma insert_set_sorted (x : string) (l : list string) :
  StronglySorted str_lt l -> StronglySorted str_lt (insert_set x l).
Proof.
  induction l as [|y t IH]; simpl; intros Hs.
  - constructor; constructor.
  - inversion Hs as [|? ? Ht Hy]; subst.
    destruct (str_ltb x y) eqn:Hxy; [|destruct (str_ltb y x) eqn:Hyx].
    + constructor; [exact Hs|]. constructor; [exact Hxy|].
      eapply List.Forall_impl; [|exact Hy].
      intros z Hz. exact (str_ltb_trans _ _ _ Hxy Hz).
    + constructor; [now apply IH|].
      apply List.Forall_forall. intros z Hz.
      destruct (insert_set_In _ _ _ Hz) as [-> | Hin]; [exact Hyx|].
      rewrite List.Forall_forall in Hy. now apply Hy.
    + exact Hs.
Qed.

Lemma sorted_set_sorted (l : list string) : StronglySorted str_lt (sorted_set l).
Proof.
  induction l as [|x l IH]; simpl; [constructor|].
  now apply insert_set_sorted.
Qed.

Lemma sorted_set_In (z : string) (l : list string) :
  In z (sorted_set l) <-> In z l.
Proof.
  induction l as [|x l IH]; simpl; [tauto|]. split.
  - intros H. destruct (insert_set_In _ _ _ H) as [-> | H']; [now left|].
    right. now apply IH.
  - intros [<- | H]; apply In_insert_set; [now left|]. right. now apply IH.
Qed.

Lemma strictly_sorted_NoDup (l : list string) :
  StronglySorted str_lt l -> List.NoDup l.
Proof.
  induction 1 as [|x l Hs IH Hx]; constructor; [|exact IH].
  intros Hin. rewrite List.Forall_forall in Hx. specialize (Hx x Hin).
  unfold str_lt in Hx. now rewrite str_ltb_irrefl in Hx.
Qed.

Lemma sorted_set_NoDup (l : list string) : List.NoDup (sorted_set l).
Proof. apply strictly_sorted_NoDup, sorted_set_sorted. Qed.

End PyFacts.

(* ===================================================================== *)
(** * The ingestion pipeline *)
(* ===================================================================== *)

Module IndexFacts.
Import Py Eff IndexPhotos PyFacts.

Lemma rmap_Forall {A B} (f : A -> result B) (P : B -> Prop) (l : list A) (r : list B) :
  (forall x y, f x = Ok y -> P y) -> rmap f l = Ok r -> Forall P r.
Proof.
  intros Hf. revert r. induction l as [|x l IH]; simpl; intros r.
  - intros [= <-]. constructor.
  - destruct (f x) as [y|e] eqn:Ex; simpl; [|discriminate].
    destruct (rmap f l) as [ys|e]; simpl; [|discriminate].
    intros [= <-]. constructor; [exact (Hf _ _ Ex) | now apply IH].
Qed.

Lemma rekognition_names_lowercase (response : json) (labels : list string) :
  rekognition_names response = Ok labels -> Forall lowercase labels.
Proof.
  unfold rekognition_names. destruct (get _ _ _) as [v|]; simpl; [|discriminate].
  destruct (iter v) as [lbls|]; simpl; [|discriminate].
  apply rmap_Forall. intros lbl y.
  destruct (getitem lbl "Name") as [name|]; simpl; [|discriminate].
  destruct name; simpl; try discriminate.
  intros [= <-]. apply lower_idem.
Qed.

Lemma auto_labels_lowercase (answer : result json) :
  Forall lowercase (auto_labels_of answer).
Proof.
  unfold auto_labels_of. destruct answer as [response|]; simpl; [|constructor].
  destruct (rekognition_names response) eqn:E; [|constructor].
  now apply rekognition_names_lowercase with response.
Qed.

(** For an answer of the documented shape the labels are the names in
    lower case, and lowering does not make a name blank. *)
Lemma auto_labels_of_response (names : list string) :
  auto_labels_of (Ok (Sim.labels_response names)) = map lower names.
Proof.
  assert (H : rmap (fun lbl => let+ name := getitem lbl "Name" in lower_of name)
                   (map (fun n => JObj [("Name", JStr n)]) names) = Ok (map lower names)).
  { induction names as [|n names IH]; simpl; [reflexivity|]. now rewrite IH. }
  unfold auto_labels_of, Sim.labels_response, rekognition_names. simpl.
  now rewrite H.
Qed.

Lemma detector_names_not_blank (names : list string) :
  Forall not_blank names ->
  Forall not_blank (auto_labels_of (Ok (Sim.labels_response names))).
Proof.
  rewrite auto_labels_of_response. intros H.
  induction H as [|n names Hn _ IH]; simpl; constructor; [|exact IH].
  unfold not_blank. now rewrite blank_lower.
Qed.

Lemma strip_lower_nonempty_ok (parts : list string) :
  Forall (fun l => not_blank l /\ lowercase l) (strip_lower_nonempty parts).
Proof.
  unfold strip_lower_nonempty. induction parts as [|p parts IH]; simpl; [constructor|].
  destruct (nonempty (strip p)) eqn:E; simpl; [|exact IH].
  constructor; [|exact IH]. split.
  - unfold not_blank. rewrite blank_lower. now apply strip_nonempty_not_blank.
  - apply lower_idem.
Qed.

Lemma custom_labels_ok (answer : result json) :
  Forall (fun l => not_blank l /\ lowercase l) (custom_labels_of answer).
Proof.
  unfold custom_labels_of. destruct answer as [head|]; simpl; [|constructor].
  unfold custom_names.
  destruct (get head _ _) as [metadata|]; simpl; [|constructor].
  destruct (get metadata _ _) as [raw|]; simpl; [|constructor].
  destruct (truthy raw); simpl; [|constructor].
  destruct raw; simpl; try constructor.
  apply strip_lower_nonempty_ok.
Qed.

Lemma all_labels_In (autos customs : list string) (l : string) :
  In l (all_labels autos customs) <-> In l autos \/ In l customs.
Proof. unfold all_labels. rewrite sorted_set_In. apply in_app_iff. Qed.

Lemma all_labels_Forall (P : string -> Prop) (autos customs : list string) :
  Forall P autos -> Forall P customs -> Forall P (all_labels autos customs).
Proof.
  rewrite !List.Forall_forall. intros Ha Hc l Hl.
  apply all_labels_In in Hl. destruct Hl; auto.
Qed.

(** Whatever the two clients answer, the fused labels are distinct, in
    increasing order and in lower case. *)
Lemma all_labels_distinct_lowercase (detected head : result json) :
  let labels := all_labels (auto_labels_of detected) (custom_labels_of head) in
  List.NoDup labels /\ StronglySorted str_lt labels /\ Forall lowercase labels.
Proof.
  simpl. split; [apply sorted_set_NoDup|]. split; [apply sorted_set_sorted|].
  apply all_labels_Forall; [apply auto_labels_lowercase|].
  eapply List.Forall_impl; [|apply custom_labels_ok]. now intros l [_ H].
Qed.

(** C1, as amended: when no label taken from the detector is empty or
    white space only, the fused label list of the document has no
    duplicates, no empty or white-space-only entry, and every entry is in
    lower case -- whatever the metadata tag string is. *)
Theorem fused_labels_invariant (detected head : result json) :
  Forall not_blank (auto_labels_of detected) ->
  LabelSet (all_labels (auto_labels_of detected) (custom_labels_of head)).
Proof.
  intros Hd. destruct (all_labels_distinct_lowercase detected head) as (Hn & _ & Hl).
  split; [exact Hn|]. split; [|exact Hl].
  apply all_labels_Forall; [exact Hd|].
  eapply List.Forall_impl; [|apply custom_labels_ok]. now intros l [H _].
Qed.

Lemma fused_labels_invariant_witness :
  LabelSet (all_labels (auto_labels_of (Ok (Sim.labels_response ["Dog"; "Park"])))
                       (custom_labels_of (Ok (Sim.head_response "Sunny, dog")))).
Proof.
  apply (fused_labels_invariant (Ok (Sim.labels_response ["Dog"; "Park"]))
                                (Ok (Sim.head_response "Sunny, dog"))).
  repeat constructor.
Defined.

(** C1 as stated fails: a detector label that is a single space reaches
    the document unchanged. *)
Lemma blank_detector_label_is_kept :
  ~ LabelSet (all_labels (auto_labels_of (Ok (Sim.labels_response [" "])))
                         (custom_labels_of (Ok (Sim.head_response "Sunny, dog")))).
Proof.
  intros (_ & Hb & _). vm_compute in Hb.
  inversion Hb as [|? ? H _]; subst. discriminate H.
Qed.

(** ** One record, step by step *)

Section Runs.
Context {W : Type} (svc : Services W).
Variables (ES_ENDPOINT ES_INDEX : string).

#[local] Abbreviation process := (process_record svc ES_ENDPOINT ES_INDEX).
#[local] Abbreviation url := (doc_url ES_ENDPOINT ES_INDEX).
#[local] Abbreviation doc_in := (document_in svc).
#[local] Abbreviation before_send := (world_before_send svc).

Lemma get_labels_from_rekognition_run (bucket key : string) (w : W) (tr : list Event) :
  get_labels_from_rekognition svc bucket key (w, tr) =
  (Ok (auto_labels_of (fst (detect_labels svc bucket key w))),
   (snd (detect_labels svc bucket key w), (tr ++ [EvDetectLabels bucket key])%list)).
Proof.
  unfold get_labels_from_rekognition, try_except, bind, call, lift, ret, auto_labels_of.
  simpl. destruct (detect_labels svc bucket key w) as [[response|e] w1]; simpl; [|reflexivity].
  now destruct (rekognition_names response).
Qed.

Lemma get_custom_labels_run (bucket key : string) (w : W) (tr : list Event) :
  get_custom_labels svc bucket key (w, tr) =
  (Ok (custom_labels_of (fst (head_object svc bucket key w))),
   (snd (head_object svc bucket key w), (tr ++ [EvHeadObject bucket key])%list)).
Proof.
  unfold get_custom_labels, try_except, bind, call, lift, ret, custom_labels_of.
  simpl. destruct (head_object svc bucket key w) as [[head|e] w1]; simpl; [|reflexivity].
  now destruct (custom_names head).
Qed.

(** [process_record] never raises.  It asks the detector, the metadata
    store and the clock, then signs; the [PUT] goes out when signing
    succeeds, and its outcome is swallowed. *)
Lemma process_record_run (record : s3_record) (w : W) (tr : list Event) :
  process record (w, tr) =
  let doc := doc_in record w in
  let w3 := before_send record w in
  let (signed, w4) := sigv4_headers svc "PUT" (url record) doc w3 in
  match signed with
  | Raise _ =>
      (Ok tt, (w4, (tr ++ lookups record ++ [EvCredentials "PUT" (url record)])%list))
  | Ok hs =>
      (Ok tt, (snd (urlopen svc "PUT" (url record) doc hs w4),
               (tr ++ lookups record ++
                [EvCredentials "PUT" (url record);
                 EvUrlopen "PUT" (url record) doc])%list))
  end.
Proof.
  unfold process_record, bind at 1. rewrite get_labels_from_rekognition_run.
  unfold bind at 1. rewrite get_custom_labels_run.
  unfold document_in, world_before_send, doc_url, key_of, lookups.
  destruct (detect_labels svc _ _ w) as [detected w1]; simpl.
  destruct (head_object svc _ _ w1) as [head w2]; simpl.
  unfold bind at 1, call at 1. simpl.
  destruct (utcnow_isoformat svc w2) as [created w3]; simpl.
  unfold try_except, sign_and_send_es, bind, call, ret. simpl.
  destruct (sigv4_headers svc _ _ _ w3) as [[hs|e] w4]; simpl.
  - destruct (urlopen svc _ _ _ hs w4) as [[answer|e] w5]; simpl;
      now rewrite <- !app_assoc.
  - now rewrite <- !app_assoc.
Qed.

Lemma index_requests_app (a b : list Event) :
  index_requests (a ++ b) = (index_requests a ++ index_requests b)%list.
Proof. apply flat_map_app. Qed.

Lemma detector_requests_app (a b : list Event) :
  detector_requests (a ++ b) = (detector_requests a ++ detector_requests b)%list.
Proof. apply flat_map_app. Qed.

Lemma for_each_run (records : list s3_record) :
  forall (w : W) (tr : list Event),
  exists (w' : W) (tr' : list Event),
    for_each svc ES_ENDPOINT ES_INDEX records (w, tr) = (Ok tt, (w', tr')) /\
    detector_requests tr' =
      (detector_requests tr ++ map (fun r => (bucket_name r, key_of r)) records)%list /\
    index_requests tr' =
      (index_requests tr ++ map (fun r => ("PUT", url r)) records)%list.
Proof.
  induction records as [|record rest IH]; intros w tr; simpl.
  - exists w, tr. now rewrite !app_nil_r.
  - unfold bind at 1. rewrite process_record_run. simpl.
    destruct (sigv4_headers svc _ _ _ _) as [[hs|e] w4].
    + destruct (IH (snd (urlopen svc "PUT" (url record) (doc_in record w) hs w4))
                   (tr ++ lookups record ++
                    [EvCredentials "PUT" (url record);
                     EvUrlopen "PUT" (url record) (doc_in record w)])%list)
        as (w' & tr' & Hrun & Hd & Hi).
      exists w', tr'. split; [exact Hrun|]. rewrite Hd, Hi.
      rewrite !detector_requests_app, !index_requests_app. simpl.
      now rewrite <- !app_assoc.
    + destruct (IH w4 (tr ++ lookups record ++ [EvCredentials "PUT" (url record)])%list)
        as (w' & tr' & Hrun & Hd & Hi).
      exists w', tr'. split; [exact Hrun|]. rewrite Hd, Hi.
      rewrite !detector_requests_app, !index_requests_app. simpl.
      now rewrite <- !app_assoc.
Qed.




End Runs.


(** ** The example of the specification *)

Section Example.
Context {W : Type} (svc : Services W).
Variable ES_ENDPOINT : string.

(** C8, as amended: for bucket [b1] and event key [a+b.jpg], detector
    labels [Dog], [Park] and tag header [Sunny, dog], the function asks
    for the decoded key [a b.jpg], builds the document with [objectKey],
    [bucket], [createdTimestamp] (the clock reading) and [labels]
    [dog], [park], [sunny], and sends it with [PUT] to
    [/photos/_doc/a%20b.jpg]. *)
Theorem end_to_end_example (w w1 w2 w3 w4 : W) (created : string)
    (hs : list (string * string)) :
  detect_labels svc "b1" "a b.jpg" w = (Ok (Sim.labels_response ["Dog"; "Park"]), w1) ->
  head_object svc "b1" "a b.jpg" w1 = (Ok (Sim.head_response "Sunny, dog"), w2) ->
  utcnow_isoformat svc w2 = (created, w3) ->
  sigv4_headers svc "PUT" (ES_ENDPOINT ++ "/photos/_doc/a%20b.jpg")
    (Scenario.photo_document created) w3 = (Ok hs, w4) ->
  exists w' : W,
    handler svc ES_ENDPOINT "photos" [Scenario.photo] (w, []) =
    (Ok ok_response,
     (w', [EvDetectLabels "b1" "a b.jpg";
           EvHeadObject "b1" "a b.jpg";
           EvUtcNow;
           EvCredentials "PUT" (ES_ENDPOINT ++ "/photos/_doc/a%20b.jpg");
           EvUrlopen "PUT" (ES_ENDPOINT ++ "/photos/_doc/a%20b.jpg")
                     (Scenario.photo_document created)])).
Proof.
  intros Hd Hh Ht Hs.
  unfold handler, for_each, bind. rewrite process_record_run.
  unfold document_in, world_before_send, doc_url, lookups.
  change (key_of Scenario.photo) with "a b.jpg".
  change (bucket_name Scenario.photo) with "b1".
  change (doc_path "photos" "a b.jpg") with "/photos/_doc/a%20b.jpg".
  rewrite Hd, Hh, Ht.
  change (document "a b.jpg" "b1" created _) with (Scenario.photo_document created).
  rewrite Hs. simpl. eexists. reflexivity.
Qed.

End Example.

Lemma end_to_end_example_witness :
  exists w' : Sim.world,
    handler (Sim.index_services Scenario.script) Scenario.endpoint "photos"
      [Scenario.photo] (Sim.start, []) =
    (Ok ok_response,
     (w', [EvDetectLabels "b1" "a b.jpg";
           EvHeadObject "b1" "a b.jpg";
           EvUtcNow;
           EvCredentials "PUT" Scenario.photo_url;
           EvUrlopen "PUT" Scenario.photo_url
                     (Scenario.photo_document "2024-05-01T10:00:00")])).
Proof.
  apply (end_to_end_example (Sim.index_services Scenario.script) Scenario.endpoint
           Sim.start Sim.start Sim.start (Sim.tick Sim.start) (Sim.tick Sim.start)
           "2024-05-01T10:00:00" []); reflexivity.
Defined.

Lemma scenario_trace :
  snd (snd (handler (Sim.index_services Scenario.script) Scenario.endpoint "photos"
              [Scenario.photo] (Sim.start, []))) =
  [EvDetectLabels "b1" "a b.jpg";
   EvHeadObject "b1" "a b.jpg";
   EvUtcNow;
   EvCredentials "PUT" Scenario.photo_url;
   EvUrlopen "PUT" Scenario.photo_url (Scenario.photo_document "2024-05-01T10:00:00")].
Proof. reflexivity. Qed.

(** C8 as stated fails: the document that is sent carries the time stamp
    too, so it is not the three-field document of the example. *)
Lemma printed_document_is_not_sent :
  ~ In (EvUrlopen "PUT" Scenario.photo_url Scenario.printed_document)
       (snd (snd (handler (Sim.index_services Scenario.script) Scenario.endpoint "photos"
                    [Scenario.photo] (Sim.start, [])))).
Proof.
  rewrite scenario_trace. simpl.
  intros [H | [H | [H | [H | [H | []]]]]]; discriminate H.
Qed.

(** ** Ingesting the same object again *)

Section Again.
Variable sc : Sim.script.
Variables (ES_ENDPOINT ES_INDEX : string).

#[local] Abbreviation ingest := (Sim.ingest sc ES_ENDPOINT ES_INDEX).
#[local] Abbreviation step := (Sim.step sc ES_ENDPOINT ES_INDEX).

Lemma sim_process_record (record : s3_record) (w : Sim.world) (tr : list Event) :
  fst (snd (process_record (Sim.index_services sc) ES_ENDPOINT ES_INDEX record (w, tr))) =
  step w record.
Proof.
  rewrite process_record_run. unfold Sim.step, Sim.accepted. simpl.
  unfold document_in, world_before_send. simpl. unfold Sim.http. simpl.
  fold (Sim.document_at sc record (Sim.ticks w)).
  destruct (Sim.credentials sc) as [hs|e]; simpl; [|reflexivity].
  now destruct (Sim.put_status sc _).
Qed.

Lemma sim_for_each (records : list s3_record) :
  forall (w : Sim.world) (tr : list Event),
  fst (snd (for_each (Sim.index_services sc) ES_ENDPOINT ES_INDEX records (w, tr))) =
  fold_left step records w.
Proof.
  induction records as [|record rest IH]; intros w tr; simpl; [reflexivity|].
  unfold bind at 1.
  pose proof (sim_process_record record w tr) as Hstep.
  pose proof (process_record_run (Sim.index_services sc) ES_ENDPOINT ES_INDEX record w tr) as Hrun.
  destruct (process_record _ _ _ record (w, tr)) as [[[]|e] [w1 tr1]].
  - simpl in Hstep. subst w1. apply IH.
  - exfalso. simpl in Hrun.
    destruct (Sim.credentials sc); [destruct (Sim.http sc _ _ _ _ _)|]; discriminate Hrun.
Qed.

Lemma sim_ingest (records : list s3_record) (w : Sim.world) :
  ingest records w = fold_left step records w.
Proof.
  unfold Sim.ingest, handler, bind.
  pose proof (sim_for_each records w []) as H.
  destruct (for_each _ _ _ records (w, [])) as [[[]|e] [w1 tr1]]; exact H.
Qed.

Lemma without_timestamp_document (key bucket created : string) (labels : list string) :
  Sim.without_timestamp (document key bucket created labels) =
  JObj [("objectKey", JStr key); ("bucket", JStr bucket); ("labels", strs labels)].
Proof. reflexivity. Qed.

Lemma sim_index_requests (record : s3_record) (w : Sim.world) :
  index_requests
    (snd (snd (handler (Sim.index_services sc) ES_ENDPOINT ES_INDEX [record] (w, [])))) =
  [("PUT", doc_url ES_ENDPOINT ES_INDEX record)].
Proof.
  destruct (for_each_run (Sim.index_services sc) ES_ENDPOINT ES_INDEX [record] w [])
    as (w' & trace & Hrun & _ & Hi).
  unfold handler, bind. now rewrite Hrun.
Qed.

(** Whatever the index service does with the writes, a second
    ingestion of the same record attempts the same upsert and leaves the
    index with the same documents, the value of [createdTimestamp]
    apart. *)
Lemma reingestion_same_documents (record : s3_record) (w : Sim.world) :
  let first := handler (Sim.index_services sc) ES_ENDPOINT ES_INDEX [record] (w, []) in
  let once := fst (snd first) in
  let second := handler (Sim.index_services sc) ES_ENDPOINT ES_INDEX [record] (once, []) in
  let twice := fst (snd second) in
  index_requests (snd (snd first)) = [("PUT", doc_url ES_ENDPOINT ES_INDEX record)] /\
  index_requests (snd (snd second)) = [("PUT", doc_url ES_ENDPOINT ES_INDEX record)] /\
  dom (Sim.index twice) = dom (Sim.index once) /\
  Sim.without_timestamp <$> Sim.index twice = Sim.without_timestamp <$> Sim.index once.
Proof.
  simpl. rewrite !sim_index_requests. split; [reflexivity|]. split; [reflexivity|].
  fold (ingest [record] w). fold (ingest [record] (ingest [record] w)).
  rewrite !sim_ingest. simpl.
  assert (Hfmap : Sim.without_timestamp <$> Sim.index (step (step w record) record) =
                  Sim.without_timestamp <$> Sim.index (step w record)).
  { unfold Sim.step. destruct (Sim.accepted sc _); simpl; [|reflexivity].
    rewrite !fmap_insert. unfold Sim.document_at.
    rewrite !without_timestamp_document. apply insert_insert_eq. }
  split; [|exact Hfmap].
  rewrite <- (dom_fmap_L Sim.without_timestamp (Sim.index (step (step w record) record))).
  rewrite Hfmap. apply dom_fmap_L.
Qed.

(** The one HTTP request of an accepted ingestion: the [PUT] of the
    document of the current clock reading. *)
Lemma sim_http_requests (record : s3_record) (w : Sim.world) :
  Sim.accepted sc (doc_url ES_ENDPOINT ES_INDEX record) = true ->
  Shape.http_requests
    (snd (snd (handler (Sim.index_services sc) ES_ENDPOINT ES_INDEX [record] (w, [])))) =
  [("PUT", doc_url ES_ENDPOINT ES_INDEX record, Sim.document_at sc record (Sim.ticks w))].
Proof.
  unfold Sim.accepted. intros Hacc.
  unfold handler, for_each, bind. rewrite process_record_run.
  unfold document_in, world_before_send. simpl.
  destruct (Sim.credentials sc) as [hs|e]; [|discriminate Hacc]. reflexivity.
Qed.

Lemma sim_step_accepted (record : s3_record) (w : Sim.world) :
  Sim.accepted sc (doc_url ES_ENDPOINT ES_INDEX record) = true ->
  step w record =
  Sim.store (doc_url ES_ENDPOINT ES_INDEX record) (Sim.document_at sc record (Sim.ticks w))
            (Sim.tick w).
Proof. intros Hacc. unfold Sim.step. now rewrite Hacc. Qed.

(** C9, as amended: when the index service accepts the writes, each of
    two ingestions of the same record, the label sources being the same,
    issues one [PUT] to the same document URL.  After the first the
    index holds there the document with the first clock reading; after
    the second it holds there the document with the later clock reading
    and is otherwise as before the first write, i.e. it is the index
    that a single ingestion at the later time leaves.  The two documents
    agree in everything but [createdTimestamp], and no document is
    added by the second write. *)
Theorem reingestion_overwrites (record : s3_record) (w : Sim.world) :
  Sim.accepted sc (doc_url ES_ENDPOINT ES_INDEX record) = true ->
  let url := doc_url ES_ENDPOINT ES_INDEX record in
  let first := handler (Sim.index_services sc) ES_ENDPOINT ES_INDEX [record] (w, []) in
  let once := fst (snd first) in
  let second := handler (Sim.index_services sc) ES_ENDPOINT ES_INDEX [record] (once, []) in
  let twice := fst (snd second) in
  let earlier := Sim.document_at sc record (Sim.ticks w) in
  let later := Sim.document_at sc record (Sim.ticks once) in
  Shape.http_requests (snd (snd first)) = [("PUT", url, earlier)] /\
  Shape.http_requests (snd (snd second)) = [("PUT", url, later)] /\
  Sim.ticks once = S (Sim.ticks w) /\
  Sim.index once = <[url := earlier]> (Sim.index w) /\
  Sim.index twice = <[url := later]> (Sim.index w) /\
  Shape.field "createdTimestamp" later = Some (JStr (Sim.stamp sc (Sim.ticks once))) /\
  Sim.without_timestamp later = Sim.without_timestamp earlier /\
  dom (Sim.index twice) = dom (Sim.index once).
Proof.
  intros Hacc. cbv zeta.
  rewrite !(sim_http_requests _ _ Hacc).
  fold (ingest [record] w). fold (ingest [record] (ingest [record] w)).
  rewrite !sim_ingest. cbn [fold_left]. rewrite !(sim_step_accepted _ _ Hacc).
  cbn [Sim.store Sim.tick Sim.ticks Sim.index].
  repeat split.
  - apply insert_insert_eq.
  - rewrite insert_insert_eq, !dom_insert_L. set_solver.
Qed.

(** A record that the index service accepts is in the index after the
    batch, whatever happened to the other records. *)
Lemma step_keeps (w : Sim.world) (record : s3_record) (url : string) :
  is_Some (Sim.index w !! url) -> is_Some (Sim.index (step w record) !! url).
Proof.
  unfold Sim.step. destruct (Sim.accepted sc _); simpl; [|easy].
  intros H. rewrite lookup_insert. now case_decide.
Qed.

Lemma fold_step_keeps (records : list s3_record) (url : string) :
  forall w, is_Some (Sim.index w !! url) ->
            is_Some (Sim.index (fold_left step records w) !! url).
Proof.
  induction records as [|r rest IH]; intros w H; simpl; [exact H|].
  apply IH. now apply step_keeps.
Qed.

Lemma sim_batch_indexed (records : list s3_record) (record : s3_record) (w : Sim.world) :
  In record records ->
  Sim.accepted sc (doc_url ES_ENDPOINT ES_INDEX record) = true ->
  is_Some (Sim.index (ingest records w) !! doc_url ES_ENDPOINT ES_INDEX record).
Proof.
  rewrite sim_ingest. intros Hin Hacc. revert w.
  induction records as [|r rest IH]; intros w; simpl; [destruct Hin|].
  destruct Hin as [-> | Hin]; [|now apply IH].
  apply fold_step_keeps. unfold Sim.step. rewrite Hacc. simpl.
  rewrite lookup_insert_eq. now eexists.
Qed.

End Again.

Lemma reingestion_overwrites_witness :
  Sim.index
    (fst (snd (handler (Sim.index_services Scenario.script) Scenario.endpoint "photos"
                 [Scenario.photo]
                 (fst (snd (handler (Sim.index_services Scenario.script) Scenario.endpoint
                              "photos" [Scenario.photo] (Sim.start, []))), [])))) =
  <[Scenario.photo_url := Scenario.photo_document "2024-05-01T10:00:01"]> (Sim.index Sim.start).
Proof.
  destruct (reingestion_overwrites Scenario.script Scenario.endpoint "photos"
              Scenario.photo Sim.start eq_refl)
    as (_ & _ & _ & _ & Htwice & _).
  exact Htwice.
Defined.

(** A refused record does not poison the batch: the first and the
    third photo are in the index, the second is not. *)
Example flaky_batch :
  let w := Sim.ingest Scenario.flaky_script Scenario.endpoint "photos"
             [Scenario.photo; Scenario.second; Scenario.third] Sim.start in
  Sim.index w !! "https://search.example/photos/_doc/a%20b.jpg" =
    Some (Scenario.photo_document "2024-05-01T10:00:00") /\
  Sim.index w !! "https://search.example/photos/_doc/bad%2Fkey.png" = None /\
  Sim.index w !! "https://search.example/photos/_doc/c.jpg" =
    Some (document "c.jpg" "b2" "2024-05-01T10:00:02" []).
Proof. rewrite sim_ingest. vm_compute. repeat split. Qed.

(** C9 as stated fails: with a clock that has moved on, the index after
    the second ingestion differs from the index after the first. *)
Lemma reingestion_changes_timestamp :
  Sim.index (Sim.ingest Scenario.script Scenario.endpoint "photos" [Scenario.photo]
               (Sim.ingest Scenario.script Scenario.endpoint "photos" [Scenario.photo] Sim.start))
  <> Sim.index (Sim.ingest Scenario.script Scenario.endpoint "photos" [Scenario.photo] Sim.start).
Proof.
  rewrite !sim_ingest. intros H.
  apply (f_equal (fun m : gmap string json => m !! Scenario.photo_url)) in H.
  simpl in H. unfold Sim.step in H. simpl in H.
  change (doc_url Scenario.endpoint "photos" Scenario.photo) with Scenario.photo_url in H.
  rewrite !lookup_insert_eq in H. discriminate H.
Qed.

End IndexFacts.

(* ===================================================================== *)
(** * The query pipeline *)
(* ===================================================================== *)

Module SearchFacts.
Import Py Eff SearchPhotos.

Section Runs.
Context {W : Type} (svc : Services W).
Variables (ES_ENDPOINT ES_INDEX : string).
Variable json_loads : string -> result json.
Variable str : json -> string.

#[local] Abbreviation extract := (extract_labels_from_lex svc).
#[local] Abbreviation send := (sign_and_send_es svc ES_ENDPOINT json_loads).
#[local] Abbreviation handle := (lambda_handler svc ES_ENDPOINT ES_INDEX json_loads str).

(** ** Label extraction *)

(** On a text, extraction makes exactly one call, to Lex, and never
    raises. *)
Lemma extract_labels_from_lex_run (text : string) (w : W) (tr : list Event) :
  extract (JStr text) (w, tr) =
  (Ok (labels_for text (fst (recognize_text svc text w))),
   (snd (recognize_text svc text w), (tr ++ [EvRecognizeText text])%list)).
Proof.
  unfold extract_labels_from_lex, try_except, bind, call, lift, ret, labels_for. simpl.
  destruct (recognize_text svc text w) as [[response|e] w1]; simpl; [|reflexivity].
  destruct (lex_labels response) as [[|l ls]|e]; reflexivity.
Qed.

Lemma extract_labels_from_lex_not_text (q : json) (s : state W) :
  (forall text, q <> JStr text) -> extract q s = (Raise AttributeError, s).
Proof. intros H. destruct q; try reflexivity. now destruct (H s0). Qed.

Lemma spec_tokenizer_eq (text : string) :
  spec_tokenizer text = fromkeys (tokens_not_in_stop (lower text)).
Proof. reflexivity. Qed.

(** When Lex answers and no slot carries a value, the result is the
    tokenizer output of the specification, duplicates removed. *)
Lemma zero_slots_fall_back (text : string) (response : json) (w w1 : W) (tr : list Event) :
  recognize_text svc text w = (Ok response, w1) ->
  lex_labels response = Ok [] ->
  fst (extract (JStr text) (w, tr)) = Ok (spec_tokenizer text).
Proof.
  intros Hcall Hzero. rewrite extract_labels_from_lex_run, Hcall. simpl.
  unfold labels_for. simpl. now rewrite Hzero.
Qed.

(** When the call to Lex raises, the result is the filtered token list
    as it is: duplicates stay. *)
Lemma lex_failure_falls_back (text : string) (e : exn) (w w1 : W) (tr : list Event) :
  recognize_text svc text w = (Raise e, w1) ->
  fst (extract (JStr text) (w, tr)) = Ok (tokens_not_in_stop (lower text)).
Proof.
  intros Hcall. now rewrite extract_labels_from_lex_run, Hcall.
Qed.

(** ** The value of [q] *)

Lemma query_of_missing (event : list (string * json)) :
  no_query_text event -> query_of (JObj event) = Ok JNull.
Proof.
  intros [Hq Hparams]. unfold query_of, contains, has_key, get, getitem.
  rewrite Hq. simpl.
  destruct (dict_get "queryStringParameters" event) as [params|]; [|reflexivity].
  destruct Hparams as [Hfalse | (ps & -> & Hps)].
  - now rewrite Hfalse.
  - destruct ps as [|p ps]; [reflexivity|].
    change (truthy (JObj (p :: ps))) with true. cbv iota.
    unfold rbind. now rewrite Hps.
Qed.

Lemma query_of_empty (event : list (string * json)) :
  empty_query_text event -> query_of (JObj event) = Ok (JStr EmptyString).
Proof.
  intros [Hq | (Hq & ps & Hparams & Hps)];
    unfold query_of, contains, has_key, get, getitem; rewrite Hq; simpl.
  - reflexivity.
  - rewrite Hparams. destruct ps as [|p ps]; [discriminate Hps|].
    change (truthy (JObj (p :: ps))) with true. cbv iota.
    unfold rbind. now rewrite Hps.
Qed.

(** ** The handler *)

(** C4: a request without query text is answered at once with status
    400 and the fixed error body; the state is untouched, so no call
    went to Lex or to the index. *)
Theorem missing_query_is_bad_request (event : list (string * json)) (s : state W) :
  no_query_text event ->
  handle (JObj event) s =
  (Ok {| statusCode := 400;
         body := JObj [("error", JStr "Missing query parameter q")];
         headers := [("Access-Control-Allow-Origin", "*")] |}, s).
Proof.
  intros H. unfold lambda_handler, bind, lift. now rewrite (query_of_missing event H).
Qed.

(** C10: a request whose [q] is the empty string, on the event or in
    [queryStringParameters], is answered like a request without [q]:
    status 400, the fixed error body, and no call to Lex or to the
    index. *)
Theorem empty_query_is_bad_request (event : list (string * json)) (s : state W) :
  empty_query_text event ->
  handle (JObj event) s =
  (Ok {| statusCode := 400;
         body := JObj [("error", JStr "Missing query parameter q")];
         headers := [("Access-Control-Allow-Origin", "*")] |}, s).
Proof.
  intros H. unfold lambda_handler, bind, lift. now rewrite (query_of_empty event H).
Qed.

(** C3: when extraction yields no label, the answer is status 200 with
    an empty result list, and the trace holds no call to the index
    service. *)
Theorem empty_labels_short_circuit (event q : json) (w : W) (s' : state W) :
  query_of event = Ok q ->
  truthy q = true ->
  extract q (w, []) = (Ok [], s') ->
  handle event (w, []) =
    (Ok {| statusCode := 200;
           body := JObj [("results", JArr [])];
           headers := [("Access-Control-Allow-Origin", "*")] |}, s') /\
  List.filter is_index_call (snd s') = [].
Proof.
  intros Hq Ht Hx. split.
  - unfold lambda_handler, bind, lift. rewrite Hq, Ht. simpl. now rewrite Hx.
  - destruct q; try discriminate Hx.
    rewrite extract_labels_from_lex_run in Hx. now inversion Hx.
Qed.

(** The [try] block answers 500 whenever anything inside it raises. *)
Lemma run_search_absorbs (labels : list string) (s : state W) :
  exists (resp : response) (s' : state W),
    run_search svc ES_ENDPOINT ES_INDEX json_loads str labels s = (Ok resp, s').
Proof.
  unfold run_search, try_except.
  destruct (bind _ _ s) as [[resp|e] s1]; eauto.
Qed.

(** C6: when the search call to the index fails -- in signing, in
    transport, by its status, or in decoding the answer -- the handler
    returns status 500 with an empty result list and the permissive
    cross-origin header; the exception stops there. *)
Theorem index_failure_is_500 (event q : json) (labels : list string) (e : exn)
    (s s1 s2 : state W) :
  query_of event = Ok q ->
  truthy q = true ->
  extract q s = (Ok labels, s1) ->
  labels <> [] ->
  send "POST" (es_path ES_INDEX) (query_body labels) s1 = (Raise e, s2) ->
  handle event s =
    (Ok {| statusCode := 500;
           body := JObj [("results", JArr [])];
           headers := [("Access-Control-Allow-Origin", "*")] |}, s2).
Proof.
  intros Hq Ht Hx Hne Hsend.
  unfold lambda_handler, bind at 1, lift. rewrite Hq, Ht. simpl.
  unfold bind at 1. rewrite Hx.
  destruct labels as [|l ls]; [now destruct Hne|].
  unfold run_search, try_except, bind. now rewrite Hsend.
Qed.

(** An answer that decodes but has no usable hits is absorbed in the
    same way. *)
Lemma malformed_hits_are_500 (labels : list string) (es_response : json) (e : exn)
    (s s1 : state W) :
  send "POST" (es_path ES_INDEX) (query_body labels) s = (Ok es_response, s1) ->
  search_results str es_response = Raise e ->
  run_search svc ES_ENDPOINT ES_INDEX json_loads str labels s = (Ok search_error, s1).
Proof.
  intros Hsend Hres. unfold run_search, try_except, bind, lift.
  now rewrite Hsend, Hres.
Qed.

(** Once [q] is a non-empty text, the handler always returns a
    response. *)
Lemma lambda_handler_returns (event : json) (text : string) (s : state W) :
  query_of event = Ok (JStr text) ->
  text <> EmptyString ->
  exists (resp : response) (s' : state W), handle event s = (Ok resp, s').
Proof.
  intros Hq Hne. unfold lambda_handler, bind at 1, lift. rewrite Hq.
  destruct text as [|c text]; [now destruct Hne|].
  change (negb (truthy (JStr (String c text)))) with false. cbv iota.
  destruct s as [w tr]. unfold bind. rewrite extract_labels_from_lex_run.
  destruct (labels_for _ _); [unfold ret; eauto|]. apply run_search_absorbs.
Qed.

End Runs.

(** ** The handler in the reference environment *)

#[local] Abbreviation sim_handler :=
  (lambda_handler (Sim.search_services Scenario.script) Scenario.endpoint "photos"
     Scenario.loads Scenario.str).

#[local] Abbreviation sim_extract :=
  (extract_labels_from_lex (Sim.search_services Scenario.script)).

Example fallback_example :
  fst (sim_extract (JStr "show me photos with dog and park") (Sim.start, [])) =
  Ok ["dog"; "park"].
Proof. reflexivity. Qed.

Lemma missing_query_is_bad_request_witness :
  sim_handler (JObj [("queryStringParameters", JObj [("page", JStr "2")])]) (Sim.start, []) =
  (Ok {| statusCode := 400;
         body := JObj [("error", JStr "Missing query parameter q")];
         headers := [("Access-Control-Allow-Origin", "*")] |}, (Sim.start, [])).
Proof.
  apply (missing_query_is_bad_request (Sim.search_services Scenario.script)
           Scenario.endpoint "photos" Scenario.loads Scenario.str
           [("queryStringParameters", JObj [("page", JStr "2")])] (Sim.start, [])).
  split; [reflexivity|]. right. exists [("page", JStr "2")]. split; reflexivity.
Defined.

Lemma empty_query_is_bad_request_witness :
  sim_handler (JObj [("queryStringParameters", JObj [("q", JStr "")])]) (Sim.start, []) =
  (Ok {| statusCode := 400;
         body := JObj [("error", JStr "Missing query parameter q")];
         headers := [("Access-Control-Allow-Origin", "*")] |}, (Sim.start, [])).
Proof.
  apply (empty_query_is_bad_request (Sim.search_services Scenario.script)
           Scenario.endpoint "photos" Scenario.loads Scenario.str
           [("queryStringParameters", JObj [("q", JStr "")])] (Sim.start, [])).
  right. split; [reflexivity|]. exists [("q", JStr "")]. split; reflexivity.
Defined.

Lemma empty_labels_short_circuit_witness :
  sim_handler (JObj [("q", JStr "Show me photos")]) (Sim.start, []) =
    (Ok {| statusCode := 200;
           body := JObj [("results", JArr [])];
           headers := [("Access-Control-Allow-Origin", "*")] |},
     (Sim.start, [EvRecognizeText "Show me photos"])) /\
  List.filter is_index_call [EvRecognizeText "Show me photos"] = [].
Proof.
  apply (empty_labels_short_circuit (Sim.search_services Scenario.script)
           Scenario.endpoint "photos" Scenario.loads Scenario.str
           (JObj [("q", JStr "Show me photos")]) (JStr "Show me photos") Sim.start
           (Sim.start, [EvRecognizeText "Show me photos"])); reflexivity.
Defined.

Lemma index_failure_is_500_witness :
  sim_handler (JObj [("q", JStr "dogs")]) (Sim.start, []) =
    (Ok {| statusCode := 500;
           body := JObj [("results", JArr [])];
           headers := [("Access-Control-Allow-Origin", "*")] |},
     (Sim.start,
      [EvRecognizeText "dogs";
       EvCredentials "POST" "https://search.example/photos/_search";
       EvUrlopen "POST" "https://search.example/photos/_search" (query_body ["dogs"])])).
Proof.
  apply (index_failure_is_500 (Sim.search_services Scenario.script)
           Scenario.endpoint "photos" Scenario.loads Scenario.str
           (JObj [("q", JStr "dogs")]) (JStr "dogs") ["dogs"] HTTPError
           (Sim.start, []) (Sim.start, [EvRecognizeText "dogs"])).
  - reflexivity.
  - reflexivity.
  - reflexivity.
  - discriminate.
  - reflexivity.
Defined.

(** C2 fails on the code when the call to Lex raises: for the query
    [dog dog] the function returns both tokens, where the tokenizer of
    the specification returns one. *)
Theorem lex_failure_keeps_duplicates :
  fst (sim_extract (JStr "dog dog") (Sim.start, [])) = Ok ["dog"; "dog"] /\
  spec_tokenizer "dog dog" = ["dog"].
Proof. split; reflexivity. Qed.

End SearchFacts.

(* ===================================================================== *)
(** * The two signed index clients *)
(* ===================================================================== *)

Module ClientFacts.
Import Py Eff.

Section Clients.
Context {W1 W2 : Type}.
Variable search_svc : SearchPhotos.Services W1.
Variable index_svc : IndexPhotos.Services W2.
Variable ES_ENDPOINT : string.
Variable json_loads : string -> result json.

(** C7, as amended: on an HTTP success the client of the query pipeline
    decodes the response body with [json.loads] and returns the outcome;
    the client of the ingestion pipeline reads the body and returns
    [None]. *)
Theorem signed_clients_on_success (method path : string) (body_dict : json)
    (hs1 hs2 : list (string * string)) (answer1 answer2 : string)
    (w1 w1' w1'' : W1) (w2 w2' w2'' : W2) (tr : list Event) :
  SearchPhotos.sigv4_headers search_svc method (ES_ENDPOINT ++ path) body_dict w1 = (Ok hs1, w1') ->
  SearchPhotos.urlopen search_svc method (ES_ENDPOINT ++ path) body_dict hs1 w1' = (Ok answer1, w1'') ->
  IndexPhotos.sigv4_headers index_svc method (ES_ENDPOINT ++ path) body_dict w2 = (Ok hs2, w2') ->
  IndexPhotos.urlopen index_svc method (ES_ENDPOINT ++ path) body_dict hs2 w2' = (Ok answer2, w2'') ->
  let calls := [EvCredentials method (ES_ENDPOINT ++ path);
                EvUrlopen method (ES_ENDPOINT ++ path) body_dict] in
  SearchPhotos.sign_and_send_es search_svc ES_ENDPOINT json_loads method path body_dict (w1, tr) =
    (json_loads answer1, (w1'', (tr ++ calls)%list)) /\
  IndexPhotos.sign_and_send_es index_svc ES_ENDPOINT method path body_dict (w2, tr) =
    (Ok JNull, (w2'', (tr ++ calls)%list)).
Proof.
  intros H1 H2 H3 H4. simpl. split.
  - unfold SearchPhotos.sign_and_send_es, bind, call, lift. cbn [fst snd].
    rewrite H1. cbn [fst snd]. rewrite H2. rewrite <- app_assoc.
    now destruct (json_loads answer1).
  - unfold IndexPhotos.sign_and_send_es, bind, call, ret. cbn [fst snd].
    rewrite H3. cbn [fst snd]. rewrite H4. now rewrite <- app_assoc.
Qed.

End Clients.

Lemma signed_clients_on_success_witness :
  SearchPhotos.sign_and_send_es (Sim.search_services Scenario.answering_script)
    Scenario.endpoint Scenario.loads "POST" "/photos/_search"
    (SearchPhotos.query_body ["dog"]) (Sim.start, []) =
    (Ok (JObj []),
     (Sim.start,
      [EvCredentials "POST" "https://search.example/photos/_search";
       EvUrlopen "POST" "https://search.example/photos/_search"
         (SearchPhotos.query_body ["dog"])])) /\
  IndexPhotos.sign_and_send_es (Sim.index_services Scenario.answering_script)
    Scenario.endpoint "POST" "/photos/_search"
    (SearchPhotos.query_body ["dog"]) (Sim.start, []) =
    (Ok JNull,
     (Sim.start,
      [EvCredentials "POST" "https://search.example/photos/_search";
       EvUrlopen "POST" "https://search.example/photos/_search"
         (SearchPhotos.query_body ["dog"])])).
Proof.
  apply (signed_clients_on_success (Sim.search_services Scenario.answering_script)
           (Sim.index_services Scenario.answering_script) Scenario.endpoint Scenario.loads
           "POST" "/photos/_search" (SearchPhotos.query_body ["dog"]) [] [] "{}" "{}"
           Sim.start Sim.start Sim.start Sim.start Sim.start Sim.start []); reflexivity.
Defined.

(** C7 as stated fails for the client of the ingestion pipeline: the
    index answers the [PUT] with an empty JSON object, and the client
    returns [None], not the decoded answer. *)
Lemma ingestion_client_returns_none :
  fst (Sim.http Scenario.answering_script "PUT" Scenario.photo_url
         (Scenario.photo_document "2024-05-01T10:00:00") [] Sim.start) = Ok "{}" /\
  fst (IndexPhotos.sign_and_send_es (Sim.index_services Scenario.answering_script)
         Scenario.endpoint "PUT" "/photos/_doc/a%20b.jpg"
         (Scenario.photo_document "2024-05-01T10:00:00") (Sim.start, []))
  <> Scenario.loads "{}".
Proof. split; [reflexivity | discriminate]. Qed.

End ClientFacts.

(* ===================================================================== *)
(** * More about strings, keys and label lists *)
(* ===================================================================== *)

Module StringFacts.
Import Py PyFacts Shape.

(** ** [strip] *)

Lemma lstrip_idem (s : string) : lstrip (lstrip s) = lstrip s.
Proof.
  destruct (lstrip_shape s) as [E | (c & r & E & Hc)]; rewrite E; simpl;
    [reflexivity | now rewrite Hc].
Qed.

Lemma rstrip_idem (s : string) : rstrip (rstrip s) = rstrip s.
Proof.
  induction s as [|c s IH]; simpl; [reflexivity|].
  destruct (rstrip s) as [|d r] eqn:E.
  - destruct (is_space c) eqn:Hc; simpl; [reflexivity | now rewrite Hc].
  - simpl in IH. simpl. destruct (rstrip r) as [|d' r'] eqn:Er.
    + destruct (is_space d); [discriminate IH|]. now rewrite IH.
    + now rewrite IH.
Qed.

Lemma strip_idem (s : string) : strip (strip s) = strip s.
Proof.
  unfold strip. destruct (lstrip_shape s) as [E | (c & r & E & Hc)]; rewrite E.
  - reflexivity.
  - destruct (rstrip_visible_head c r Hc) as [r' Hr]. rewrite Hr.
    simpl lstrip. rewrite Hc. rewrite <- Hr. apply rstrip_idem.
Qed.

Lemma lstrip_lower (s : string) : lstrip (lower s) = lower (lstrip s).
Proof.
  induction s as [|c s IH]; simpl; [reflexivity|].
  rewrite is_space_lower_char. now destruct (is_space c).
Qed.

Lemma rstrip_lower (s : string) : rstrip (lower s) = lower (rstrip s).
Proof.
  induction s as [|c s IH]; simpl; [reflexivity|].
  rewrite IH, is_space_lower_char.
  destruct (rstrip s); simpl; [now destruct (is_space c) | reflexivity].
Qed.

Lemma strip_lower (s : string) : strip (lower s) = lower (strip s).
Proof. unfold strip. now rewrite lstrip_lower, rstrip_lower. Qed.

Lemma char_in_lstrip (c : ascii) (s : string) :
  char_in c (lstrip s) = true -> char_in c s = true.
Proof.
  induction s as [|d s IH]; simpl; [easy|].
  destruct (is_space d); simpl; [|easy].
  intros H. rewrite (IH H). apply orb_true_r.
Qed.

Lemma char_in_rstrip (c : ascii) (s : string) :
  char_in c (rstrip s) = true -> char_in c s = true.
Proof.
  induction s as [|d s IH]; simpl; [easy|].
  destruct (rstrip s) as [|e r].
  - destruct (is_space d); simpl; [discriminate|].
    rewrite orb_false_r. intros ->. reflexivity.
  - change (char_in c (String d (String e r))) with (Ascii.eqb c d || char_in c (String e r)).
    destruct (Ascii.eqb c d); [reflexivity|]. simpl orb. exact IH.
Qed.

Lemma char_in_strip (c : ascii) (s : string) :
  char_in c (strip s) = true -> char_in c s = true.
Proof. intros H. now apply char_in_lstrip, char_in_rstrip. Qed.

Lemma lower_char_comma (c : ascii) : Ascii.eqb "," (lower_char c) = Ascii.eqb "," c.
Proof. by_cases_on_char c. Qed.

Lemma char_in_comma_lower (s : string) : char_in "," (lower s) = char_in "," s.
Proof.
  induction s as [|c s IH]; [reflexivity|].
  cbn [lower char_in]. now rewrite lower_char_comma, IH.
Qed.

(** ** [split(',')] *)

Lemma split_on_pieces (sep : ascii) (s : string) :
  Forall (fun piece => char_in sep piece = false) (split_on sep s).
Proof.
  induction s as [|c s IH]; simpl.
  - repeat constructor.
  - destruct (Ascii.eqb c sep) eqn:E.
    + constructor; [reflexivity | exact IH].
    + destruct (split_on sep s) as [|h t]; [repeat constructor; simpl|].
      * rewrite Ascii.eqb_sym, E. reflexivity.
      * inversion IH as [|? ? Hh Ht]; subst. constructor; [|exact Ht].
        simpl. now rewrite Ascii.eqb_sym, E.
Qed.

(** ** [split()] *)

Lemma split_tokens (s : string) :
  Forall (fun t => nonempty t = true /\ all_chars visible t = true) (split s).
Proof.
  induction s as [|c s IH]; [constructor|].
  cbn [split]. destruct (is_space c) eqn:Hc; [exact IH|].
  assert (Hone : nonempty (String c EmptyString) = true /\
                 all_chars visible (String c EmptyString) = true).
  { split; [reflexivity|]. simpl. unfold visible. now rewrite Hc. }
  destruct s as [|c' s']; [now repeat constructor|].
  destruct (is_space c') eqn:Hc'; [constructor; [exact Hone | exact IH]|].
  destruct (split (String c' s')) as [|h t]; [now repeat constructor|].
  inversion IH as [|? ? [Hn Hv] Ht]; subst. constructor; [|exact Ht].
  split; [reflexivity|]. simpl. unfold visible at 1. now rewrite Hc, Hv.
Qed.

Lemma split_lower (s : string) : split (lower s) = map lower (split s).
Proof.
  induction s as [|c s IH]; [reflexivity|].
  cbn [split lower]. rewrite is_space_lower_char.
  destruct (is_space c); [exact IH|].
  destruct s as [|c' s']; [reflexivity|].
  cbn [lower] in *. rewrite is_space_lower_char.
  destruct (is_space c').
  - rewrite IH. reflexivity.
  - rewrite IH. destruct (split (String c' s')); reflexivity.
Qed.

(** ** [dict.fromkeys] *)

Lemma mem_In (x : string) (l : list string) : mem x l = true <-> In x l.
Proof.
  unfold mem. rewrite existsb_exists. split.
  - intros (y & Hy & E). apply String.eqb_eq in E. now subst.
  - intros H. exists x. split; [exact H | apply String.eqb_refl].
Qed.

Lemma fromkeys_aux_In (x : string) (l seen : list string) :
  In x (fromkeys_aux seen l) <-> In x l /\ ~ In x seen.
Proof.
  revert seen. induction l as [|y t IH]; intros seen; simpl; [tauto|].
  destruct (mem y seen) eqn:E.
  - apply mem_In in E. rewrite IH. split; [tauto|].
    intros [[<- | H] Hn]; [contradiction | tauto].
  - assert (Hy : ~ In y seen) by (rewrite <- mem_In, E; discriminate).
    simpl. rewrite IH. simpl. split.
    + intros [<- | [H Hn]]; [tauto|]. split; [tauto|]. intros Hs. apply Hn. now right.
    + intros [[<- | H] Hn]; [now left|].
      destruct (String.eqb_spec y x) as [-> | Hne]; [now left|].
      right. split; [exact H|]. intros [-> | Hs]; [now apply Hne | contradiction].
Qed.

Lemma fromkeys_aux_NoDup (l seen : list string) : List.NoDup (fromkeys_aux seen l).
Proof.
  revert seen. induction l as [|y t IH]; intros seen; simpl; [constructor|].
  destruct (mem y seen); [apply IH|].
  constructor; [|apply IH]. rewrite fromkeys_aux_In. simpl. tauto.
Qed.

Lemma fromkeys_In (x : string) (l : list string) : In x (fromkeys l) <-> In x l.
Proof. unfold fromkeys. rewrite fromkeys_aux_In. simpl. tauto. Qed.

Lemma fromkeys_NoDup (l : list string) : List.NoDup (fromkeys l).
Proof. apply fromkeys_aux_NoDup. Qed.

(** ** Strictly increasing lists *)

Lemma str_ltb_asym (a b : string) : str_ltb a b = true -> str_ltb b a = false.
Proof.
  intros H. destruct (str_ltb b a) eqn:E; [|reflexivity].
  pose proof (str_ltb_trans _ _ _ H E) as Hc. now rewrite str_ltb_irrefl in Hc.
Qed.

Lemma strictly_sorted_unique (l1 l2 : list string) :
  StronglySorted str_lt l1 -> StronglySorted str_lt l2 ->
  (forall x, In x l1 <-> In x l2) -> l1 = l2.
Proof.
  intros H1. revert l2. induction H1 as [|x l1 Hs1 IH Hx]; intros l2 H2 Hsame.
  - destruct l2 as [|y l2]; [reflexivity|]. destruct (proj2 (Hsame y)). now left.
  - destruct H2 as [|y l2 Hs2 Hy].
    + destruct (proj1 (Hsame x)). now left.
    + rewrite List.Forall_forall in Hx, Hy.
      assert (Exy : x = y).
      { destruct (proj1 (Hsame x) (or_introl eq_refl)) as [E | Hin]; [now symmetry|].
        destruct (proj2 (Hsame y) (or_introl eq_refl)) as [E | Hin']; [exact E|].
        pose proof (Hy x Hin) as Hyx. pose proof (Hx y Hin') as Hxy.
        unfold str_lt in *. now rewrite (str_ltb_asym _ _ Hxy) in Hyx. }
      subst y. f_equal. apply IH; [exact Hs2|].
      intros z. split; intros Hz.
      * destruct (proj1 (Hsame z) (or_intror Hz)) as [<- | H]; [|exact H].
        pose proof (Hx x Hz) as Hc. unfold str_lt in Hc. now rewrite str_ltb_irrefl in Hc.
      * destruct (proj2 (Hsame z) (or_intror Hz)) as [<- | H]; [|exact H].
        pose proof (Hy x Hz) as Hc. unfold str_lt in Hc. now rewrite str_ltb_irrefl in Hc.
Qed.

End StringFacts.

(* ===================================================================== *)
(** * Document identifiers *)
(* ===================================================================== *)

Module KeyFacts.
Import Py PyFacts Shape.

Lemma hex_high_safe (c : ascii) : always_safe (hex_digit (code c / 16)) = true.
Proof. by_cases_on_char c. Qed.

Lemma hex_low_safe (c : ascii) : always_safe (hex_digit (code c mod 16)) = true.
Proof. by_cases_on_char c. Qed.

Lemma hex_high_value (c : ascii) : hex_value (hex_digit (code c / 16)) = Some (code c / 16).
Proof. by_cases_on_char c. Qed.

Lemma hex_low_value (c : ascii) : hex_value (hex_digit (code c mod 16)) = Some (code c mod 16).
Proof. by_cases_on_char c. Qed.

Lemma hex_rebuild (c : ascii) : ascii_of_nat (16 * (code c / 16) + code c mod 16) = c.
Proof. by_cases_on_char c. Qed.

Lemma percent_not_safe (c : ascii) : always_safe c = true -> Ascii.eqb c "%" = false.
Proof. destruct c as [[] [] [] [] [] [] [] []]; simpl; intros H; (reflexivity || discriminate H). Qed.

Lemma char_in_false_eqb (c d : ascii) (safe : string) :
  char_in d safe = false -> char_in c safe = true -> Ascii.eqb c d = false.
Proof.
  intros Hd Hc. destruct (Ascii.eqb_spec c d) as [-> | Hne]; [|reflexivity].
  now rewrite Hc in Hd.
Qed.

(** [quote] only lets through the unreserved characters and those of
    [safe]; everything else becomes an escape. *)
Lemma quote_alphabet (safe s : string) :
  all_chars (fun c => unreserved_or_percent c || char_in c safe) (quote safe s) = true.
Proof.
  induction s as [|c s IH]; [reflexivity|]. cbn [quote].
  destruct (always_safe c || char_in c safe) eqn:E.
  - cbn [all_chars]. rewrite IH, andb_true_r. unfold unreserved_or_percent.
    apply orb_true_iff in E. destruct E as [-> | ->]; [reflexivity | apply orb_true_r].
  - cbn [all_chars]. rewrite IH. unfold unreserved_or_percent.
    now rewrite hex_high_safe, hex_low_safe.
Qed.

(** Decoding undoes [quote], as long as [%] itself is not declared safe. *)
Lemma unquote_quote (safe s : string) :
  char_in "%" safe = false -> unquote (quote safe s) = s.
Proof.
  intros Hsafe. induction s as [|c s IH]; [reflexivity|]. cbn [quote].
  destruct (always_safe c || char_in c safe) eqn:E.
  - cbn [unquote].
    assert (Hc : Ascii.eqb c "%" = false).
    { apply orb_true_iff in E. destruct E as [E | E];
        [now apply percent_not_safe | now apply char_in_false_eqb with safe]. }
    now rewrite Hc, IH.
  - cbn [unquote]. change (Ascii.eqb "%" "%") with true. cbv iota.
    now rewrite hex_high_value, hex_low_value, hex_rebuild, IH.
Qed.

Lemma all_chars_char_in (p : ascii -> bool) (c : ascii) (s : string) :
  all_chars p s = true -> p c = false -> char_in c s = false.
Proof.
  intros Hall Hc. induction s as [|d s IH]; [reflexivity|].
  cbn [all_chars] in Hall. apply andb_true_iff in Hall. destruct Hall as [Hd Hs].
  cbn [char_in]. rewrite (IH Hs), orb_false_r.
  destruct (Ascii.eqb_spec c d) as [-> | Hne]; [now rewrite Hd in Hc | reflexivity].
Qed.

Lemma strict_quote_alphabet (s : string) :
  all_chars unreserved_or_percent (quote "" s) = true.
Proof.
  pose proof (quote_alphabet "" s) as H.
  induction (quote "" s) as [|c t IH]; [reflexivity|].
  cbn [all_chars char_in] in *. rewrite orb_false_r in H.
  apply andb_true_iff in H. destruct H as [-> H]. now apply IH.
Qed.

Lemma plus_to_space_without_plus (s : string) :
  char_in "+" s = false -> plus_to_space s = s.
Proof.
  induction s as [|c s IH]; [reflexivity|]. cbn [char_in plus_to_space].
  intros H. apply orb_false_iff in H. destruct H as [Hc Hs].
  rewrite Ascii.eqb_sym, Hc. now rewrite (IH Hs).
Qed.

Lemma string_app_inv_head (p a b : string) : p ++ a = p ++ b -> a = b.
Proof. induction p as [|c p IH]; simpl; [easy|]. intros [= H]. now apply IH. Qed.

End KeyFacts.

(* ===================================================================== *)
(** * More about the ingestion pipeline *)
(* ===================================================================== *)

Module IndexMore.
Import Py Eff IndexPhotos PyFacts IndexFacts StringFacts KeyFacts Shape.

(** ** The document identifier *)

(** X5: The identifier under which a photo is indexed decodes back to its
    key with the decoder that [handler] applies to event keys. *)
Theorem doc_id_round_trip (key : string) :
  unquote_plus (quote "" key) = key.
Proof.
  unfold unquote_plus. rewrite plus_to_space_without_plus.
  - now apply unquote_quote.
  - apply all_chars_char_in with unreserved_or_percent;
      [apply strict_quote_alphabet | reflexivity].
Qed.

(** X6: For a given index name the document path is injective in the
    key: two keys with the same document path are the same key.  The
    bucket is no part of the path. *)
Theorem doc_path_injective (ES_INDEX key1 key2 : string) :
  doc_path ES_INDEX key1 = doc_path ES_INDEX key2 -> key1 = key2.
Proof.
  unfold doc_path. intros H.
  do 3 apply string_app_inv_head in H.
  rewrite <- (unquote_quote "" key1), <- (unquote_quote "" key2) by reflexivity.
  now rewrite H.
Qed.

Lemma doc_path_injective_witness : "a b.jpg" = "a b.jpg".
Proof.
  apply (doc_path_injective "photos" "a b.jpg" "a b.jpg"). reflexivity.
Defined.

(** X7: The identifier is made of letters, digits, [_], [.], [-], [~] and
    [%] only; in particular it holds no [/], so the path always has the
    three segments index, [_doc], identifier. *)
Theorem doc_id_alphabet (key : string) :
  all_chars unreserved_or_percent (quote "" key) = true /\
  char_in "/" (quote "" key) = false.
Proof.
  split; [apply strict_quote_alphabet|].
  apply all_chars_char_in with unreserved_or_percent;
    [apply strict_quote_alphabet | reflexivity].
Qed.

(** ** The two label sources *)

Lemma rmap_raises {A B} (f : A -> result B) (l : list A) (x : A) :
  In x l -> (forall y, f x <> Ok y) -> exists e, rmap f l = Raise e.
Proof.
  intros Hin Hx. induction l as [|a l IH]; [destruct Hin|]. simpl.
  destruct (f a) as [y|e] eqn:Ea; [|now exists e]. simpl.
  destruct Hin as [-> | Hin]; [now destruct (Hx y)|].
  destruct (IH Hin) as [e ->]. now exists e.
Qed.

Section Sources.
Context {W : Type} (svc : Services W).

(** X2: One label without a usable name costs all detector labels: the
    function returns the empty list, not the labels it could read. *)
Theorem one_bad_label_voids_the_rest (bucket key : string) (w w1 : W) (tr : list Event)
    (d : list (string * json)) (lbls : list json) (lbl : json) :
  detect_labels svc bucket key w = (Ok (JObj d), w1) ->
  dict_get "Labels" d = Some (JArr lbls) ->
  In lbl lbls ->
  (forall name, getitem lbl "Name" <> Ok (JStr name)) ->
  get_labels_from_rekognition svc bucket key (w, tr) =
  (Ok [], (w1, (tr ++ [EvDetectLabels bucket key])%list)).
Proof.
  intros Hcall Hlabels Hin Hbad.
  rewrite get_labels_from_rekognition_run, Hcall. cbn [fst snd].
  unfold auto_labels_of, rbind, rekognition_names, get. rewrite Hlabels.
  cbn [rbind iter].
  destruct (rmap_raises (fun l => let+ name := getitem l "Name" in lower_of name) lbls lbl Hin)
    as [e ->]; [|reflexivity].
  intros y. destruct (getitem lbl "Name") as [v|e] eqn:E; [|discriminate].
  destruct v; cbn; try discriminate. now destruct (Hbad s).
Qed.

(** X1: Whatever the metadata store answers, [get_custom_labels] returns a
    list, and each label in it is trimmed, not empty, in lower case and
    free of commas. *)
Theorem custom_labels_are_clean (bucket key : string) (s : state W) :
  exists (labels : list string) (s' : state W),
    get_custom_labels svc bucket key s = (Ok labels, s') /\
    Forall (fun l => strip l = l /\ nonempty l = true /\
                     lower l = l /\ char_in "," l = false) labels.
Proof.
  destruct s as [w tr]. rewrite get_custom_labels_run. eexists. eexists.
  split; [reflexivity|].
  unfold custom_labels_of. destruct (fst (head_object svc bucket key w)) as [head|];
    [|constructor]. cbn [rbind]. unfold custom_names.
  destruct (get head _ _) as [metadata|]; [|constructor]. cbn [rbind].
  destruct (get metadata _ _) as [raw|]; [|constructor]. cbn [rbind].
  destruct (truthy raw); [|constructor]. cbn [negb].
  destruct raw; try constructor. cbn [split_comma_of rbind].
  unfold strip_lower_nonempty.
  pose proof (split_on_pieces "," s) as Hpieces.
  induction Hpieces as [|p ps Hp _ IH]; [constructor|]. cbn [List.filter].
  destruct (nonempty (strip p)) eqn:E; [|exact IH].
  cbn [map]. constructor; [|exact IH]. repeat split.
  - now rewrite <- strip_lower, strip_idem.
  - destruct (strip p); [discriminate E | reflexivity].
  - apply lower_idem.
  - rewrite char_in_comma_lower.
    destruct (char_in "," (strip p)) eqn:Hc; [|reflexivity].
    apply char_in_strip in Hc. now rewrite Hc in Hp.
Qed.

End Sources.

Lemma one_bad_label_voids_the_rest_witness :
  get_labels_from_rekognition (Sim.index_services Cases.broken_script) "b1" "a b.jpg"
    (Sim.start, []) =
  (Ok [], (Sim.start, [EvDetectLabels "b1" "a b.jpg"])).
Proof.
  apply (one_bad_label_voids_the_rest (Sim.index_services Cases.broken_script)
           "b1" "a b.jpg" Sim.start Sim.start []
           [("Labels", JArr Cases.broken_labels)] Cases.broken_labels Cases.nameless_label).
  - reflexivity.
  - reflexivity.
  - right. left. reflexivity.
  - intros name. discriminate.
Defined.

(** ** Fusion *)

(** X3: The fused list is in strictly increasing order and holds exactly the
    labels of the two sources. *)
Theorem fused_labels_are_the_sorted_union (auto_labels custom_labels : list string) :
  StronglySorted str_lt (all_labels auto_labels custom_labels) /\
  forall l, In l (all_labels auto_labels custom_labels) <->
            In l auto_labels \/ In l custom_labels.
Proof.
  split; [apply sorted_set_sorted|]. intros l.
  unfold all_labels. rewrite sorted_set_In. apply in_app_iff.
Qed.

(** X4: The fused list depends on the labels only, not on their source,
    their order or their repetitions. *)
Theorem fused_labels_ignore_order (a c a' c' : list string) :
  (forall l, In l a \/ In l c <-> In l a' \/ In l c') ->
  all_labels a c = all_labels a' c'.
Proof.
  intros Hsame. apply strictly_sorted_unique; try apply sorted_set_sorted.
  intros l. unfold all_labels. rewrite !sorted_set_In, !in_app_iff. apply Hsame.
Qed.

Lemma fused_labels_ignore_order_witness :
  all_labels ["dog"; "park"] ["sunny"; "dog"] =
  all_labels ["sunny"; "dog"] ["park"; "dog"; "dog"].
Proof.
  apply (fused_labels_ignore_order ["dog"; "park"] ["sunny"; "dog"]
           ["sunny"; "dog"] ["park"; "dog"; "dog"]).
  intros l. simpl. tauto.
Defined.

(** ** What a batch sends *)

Section Batch.
Context {W : Type} (svc : Services W).
Variables (ES_ENDPOINT ES_INDEX : string).

Lemma http_requests_app (a b : list Event) :
  http_requests (a ++ b) = (http_requests a ++ http_requests b)%list.
Proof. apply flat_map_app. Qed.

Lemma document_in_fields (record : s3_record) (w : W) :
  field "objectKey" (document_in svc record w) = Some (JStr (key_of record)) /\
  field "bucket" (document_in svc record w) = Some (JStr (bucket_name record)).
Proof.
  unfold document_in.
  destruct (detect_labels svc _ _ w) as [detected w1].
  destruct (head_object svc _ _ w1) as [head w2].
  destruct (utcnow_isoformat svc w2) as [created w3]. now split.
Qed.

Lemma upsert_of_cons (record : s3_record) (records : list s3_record)
    (request : string * string * json) :
  upsert_of ES_ENDPOINT ES_INDEX records request ->
  upsert_of ES_ENDPOINT ES_INDEX (record :: records) request.
Proof.
  destruct request as [[m u] b]. intros (Hm & r & Hin & H). split; [exact Hm|].
  exists r. split; [now right | exact H].
Qed.

Lemma for_each_http (records : list s3_record) :
  forall (w : W) (tr : list Event),
  exists (w' : W) (tr' : list Event) (sent : list (string * string * json)),
    for_each svc ES_ENDPOINT ES_INDEX records (w, tr) = (Ok tt, (w', tr')) /\
    http_requests tr' = (http_requests tr ++ sent)%list /\
    Forall (upsert_of ES_ENDPOINT ES_INDEX records) sent /\
    ((forall m u b w0, exists e w1, sigv4_headers svc m u b w0 = (Raise e, w1)) ->
     sent = []).
Proof.
  induction records as [|record rest IH]; intros w tr.
  - exists w, tr, []. cbn. rewrite app_nil_r. repeat split. constructor.
  - cbn [for_each]. unfold bind at 1. rewrite process_record_run. cbv zeta.
    destruct (sigv4_headers svc _ _ _ _) as [[hs|e] w4] eqn:Hsign.
    + match goal with
      | |- context [for_each _ _ _ rest (?w0, ?t0)] =>
          destruct (IH w0 t0) as (w' & tr' & sent & Hrun & Hreq & Hall & _)
      end.
      exists w', tr',
        (("PUT", doc_url ES_ENDPOINT ES_INDEX record, document_in svc record w) :: sent).
      split; [exact Hrun|]. split; [|split].
      * rewrite Hreq, !http_requests_app. cbn. now rewrite <- app_assoc.
      * constructor.
        -- split; [reflexivity|]. exists record. split; [now left|].
           split; [reflexivity | apply document_in_fields].
        -- eapply List.Forall_impl; [|exact Hall]. intros r. apply upsert_of_cons.
      * intros Hnever. destruct (Hnever "PUT" (doc_url ES_ENDPOINT ES_INDEX record)
                                    (document_in svc record w)
                                    (world_before_send svc record w)) as (e & w1 & He).
        rewrite He in Hsign. discriminate Hsign.
    + match goal with
      | |- context [for_each _ _ _ rest (?w0, ?t0)] =>
          destruct (IH w0 t0) as (w' & tr' & sent & Hrun & Hreq & Hall & Hnone)
      end.
      exists w', tr', sent. split; [exact Hrun|]. split; [|split].
      * rewrite Hreq, !http_requests_app. cbn. now rewrite app_nil_r.
      * eapply List.Forall_impl; [|exact Hall]. intros r. apply upsert_of_cons.
      * exact Hnone.
Qed.

(** X8: The only HTTP requests of an invocation are upserts of its records:
    each is a [PUT] to the document URL of a record of the batch with
    that record's key and bucket in the body.  Nothing is ever read,
    searched or deleted. *)
Theorem batch_sends_only_its_upserts (records : list s3_record) (w : W) :
  exists (w' : W) (trace : list Event),
    handler svc ES_ENDPOINT ES_INDEX records (w, []) = (Ok ok_response, (w', trace)) /\
    Forall (upsert_of ES_ENDPOINT ES_INDEX records) (http_requests trace).
Proof.
  destruct (for_each_http records w []) as (w' & tr' & sent & Hrun & Hreq & Hall & _).
  exists w', tr'. unfold handler, bind. rewrite Hrun. split; [reflexivity|].
  now rewrite Hreq.
Qed.

(** X9: When the session cannot sign (no credentials), no HTTP request
    leaves the function for any record, and [handler] still answers
    with its OK response. *)
Theorem unsigned_batch_sends_nothing (records : list s3_record) (w : W) :
  (forall m u b w0, exists e w1, sigv4_headers svc m u b w0 = (Raise e, w1)) ->
  exists (w' : W) (trace : list Event),
    handler svc ES_ENDPOINT ES_INDEX records (w, []) = (Ok ok_response, (w', trace)) /\
    http_requests trace = [].
Proof.
  intros Hnever.
  destruct (for_each_http records w []) as (w' & tr' & sent & Hrun & Hreq & _ & Hnone).
  exists w', tr'. unfold handler, bind. rewrite Hrun. split; [reflexivity|].
  now rewrite Hreq, (Hnone Hnever).
Qed.

End Batch.

Lemma unsigned_batch_sends_nothing_witness :
  exists (w' : Sim.world) (trace : list Event),
    handler (Sim.index_services Cases.unsigned_script) Scenario.endpoint "photos"
      [Scenario.photo; Scenario.third] (Sim.start, []) = (Ok ok_response, (w', trace)) /\
    http_requests trace = [].
Proof.
  apply (unsigned_batch_sends_nothing (Sim.index_services Cases.unsigned_script)
           Scenario.endpoint "photos" [Scenario.photo; Scenario.third] Sim.start).
  intros m u b w0. exists CredentialsError, w0. reflexivity.
Defined.

End IndexMore.

(* ===================================================================== *)
(** * More about the query pipeline *)
(* ===================================================================== *)

Module SearchMore.
Import Py Eff SearchPhotos PyFacts IndexFacts StringFacts SearchFacts Shape.

(** ** Labels taken from the answer of Lex *)

Lemma rmap_Forall_concat {A} (f : A -> result (list string)) (P : string -> Prop)
    (l : list A) (r : list (list string)) :
  (forall x ys, f x = Ok ys -> Forall P ys) -> rmap f l = Ok r -> Forall P (concat r).
Proof.
  intros Hf Hr. apply List.Forall_concat.
  exact (rmap_Forall f (Forall P) l r Hf Hr).
Qed.

Lemma slot_labels_lowercase (slot_val : json) (ls : list string) :
  slot_labels slot_val = Ok ls -> Forall IndexPhotos.lowercase ls.
Proof.
  unfold slot_labels. destruct (truthy slot_val); [|intros [= <-]; constructor].
  destruct (contains "value" slot_val) as [[]|]; cbn [rbind];
    [|intros [= <-]; constructor | discriminate].
  destruct (getitem slot_val "value") as [value|]; cbn [rbind]; [|discriminate].
  destruct (getitem value "interpretedValue") as [iv|]; cbn [rbind]; [|discriminate].
  destruct iv; cbn; try discriminate.
  intros [= <-]. repeat constructor. apply lower_idem.
Qed.

Lemma lex_labels_lowercase (response : json) (ls : list string) :
  lex_labels response = Ok ls -> Forall IndexPhotos.lowercase ls.
Proof.
  unfold lex_labels. destruct (get response _ _) as [v|]; cbn [rbind]; [|discriminate].
  destruct (iter v) as [interps|]; cbn [rbind]; [|discriminate].
  destruct (rmap interp_labels interps) as [per|] eqn:E; cbn [rbind]; [|discriminate].
  intros [= <-]. apply (rmap_Forall_concat interp_labels _ interps per); [|exact E].
  intros interp ys. unfold interp_labels.
  destruct (get interp _ _) as [intent|]; cbn [rbind]; [|discriminate].
  destruct (get intent _ _) as [slots|]; cbn [rbind]; [|discriminate].
  destruct (items slots) as [its|]; cbn [rbind]; [|discriminate].
  destruct (rmap _ its) as [per_slot|] eqn:Es; cbn [rbind]; [|discriminate].
  intros [= <-].
  apply (rmap_Forall_concat (fun kv => slot_labels (snd kv)) _ its per_slot); [|exact Es].
  intros kv zs. apply slot_labels_lowercase.
Qed.

(** ** The fallback tokens *)

Lemma tokens_In (t query_lc : string) :
  In t (tokens_not_in_stop query_lc) <-> In t (split query_lc) /\ mem t stop = false.
Proof.
  unfold tokens_not_in_stop. rewrite filter_In.
  now destruct (mem t stop).
Qed.

Lemma tokens_lowercase (text : string) :
  Forall IndexPhotos.lowercase (tokens_not_in_stop (lower text)).
Proof.
  apply List.Forall_forall. intros t Ht. apply tokens_In in Ht. destruct Ht as [Ht _].
  rewrite split_lower in Ht. apply in_map_iff in Ht. destruct Ht as (t0 & <- & _).
  apply lower_idem.
Qed.

Lemma Forall_fromkeys (P : string -> Prop) (l : list string) :
  Forall P l -> Forall P (fromkeys l).
Proof.
  rewrite !List.Forall_forall. intros H x Hx. apply H. now apply fromkeys_In.
Qed.

Section Extraction.
Context {W : Type} (svc : Services W).

#[local] Abbreviation extract := (extract_labels_from_lex svc).

(** X10: For a text, extraction always returns a list, and every label in
    it is in lower case, whether it comes from Lex or from the
    tokenizer. *)
Theorem extracted_labels_are_lowercase (text : string) (s : state W) :
  exists (labels : list string) (s' : state W),
    extract (JStr text) s = (Ok labels, s') /\ Forall (fun l => lower l = l) labels.
Proof.
  destruct s as [w tr]. rewrite extract_labels_from_lex_run. eexists. eexists.
  split; [reflexivity|]. unfold labels_for.
  destruct (fst (recognize_text svc text w)) as [response|]; cbn [rbind];
    [|apply tokens_lowercase].
  destruct (lex_labels response) as [[|l ls]|] eqn:E.
  - apply Forall_fromkeys, tokens_lowercase.
  - apply Forall_fromkeys. now apply lex_labels_lowercase with response.
  - apply tokens_lowercase.
Qed.

(** X11: When Lex answers and its answer can be read, the result has no
    duplicates and holds exactly the Lex labels -- or, when there are
    none, exactly the fallback tokens. *)
Theorem answered_extraction_has_no_duplicates (text : string) (response : json)
    (ls : list string) (w w1 : W) (tr : list Event) :
  recognize_text svc text w = (Ok response, w1) ->
  lex_labels response = Ok ls ->
  exists labels : list string,
    extract (JStr text) (w, tr) = (Ok labels, (w1, (tr ++ [EvRecognizeText text])%list)) /\
    List.NoDup labels /\
    forall l, In l labels <->
              In l (match ls with [] => tokens_not_in_stop (lower text) | _ => ls end).
Proof.
  intros Hcall Hls. rewrite extract_labels_from_lex_run, Hcall. cbn [fst snd].
  unfold labels_for. cbn [rbind]. rewrite Hls.
  destruct ls as [|l ls]; eexists; (split; [reflexivity|]);
    (split; [apply fromkeys_NoDup | intros x; apply fromkeys_In]).
Qed.

(** X12: When the call to Lex raises, every label returned is a word of the
    query: not empty, without white space, and not a stop word. *)
Theorem fallback_labels_are_words (text : string) (e : exn) (w w1 : W) (tr : list Event) :
  recognize_text svc text w = (Raise e, w1) ->
  exists labels : list string,
    extract (JStr text) (w, tr) = (Ok labels, (w1, (tr ++ [EvRecognizeText text])%list)) /\
    Forall (fun t => nonempty t = true /\ all_chars visible t = true /\
                     ~ In t ["show"; "me"; "photos"; "with"; "and"; "in"]) labels.
Proof.
  intros Hcall. rewrite extract_labels_from_lex_run, Hcall. cbn [fst snd].
  eexists. split; [reflexivity|]. unfold labels_for. cbn [rbind].
  apply List.Forall_forall. intros t Ht. apply tokens_In in Ht. destruct Ht as [Ht Hstop].
  pose proof (split_tokens (lower text)) as Hall. rewrite List.Forall_forall in Hall.
  destruct (Hall t Ht) as [Hn Hv]. split; [exact Hn|]. split; [exact Hv|].
  intros Hin. apply mem_In in Hin. unfold stop in Hstop. now rewrite Hin in Hstop.
Qed.

End Extraction.

Lemma answered_extraction_has_no_duplicates_witness :
  exists labels : list string,
    extract_labels_from_lex (Sim.search_services Cases.lex_script) (JStr "Dogs in the park")
      (Sim.start, []) = (Ok labels, (Sim.start, [EvRecognizeText "Dogs in the park"])) /\
    List.NoDup labels /\
    forall l, In l labels <-> In l ["dog"; "dog"; "park"].
Proof.
  apply (answered_extraction_has_no_duplicates (Sim.search_services Cases.lex_script)
           "Dogs in the park" Cases.lex_answer ["dog"; "dog"; "park"]
           Sim.start Sim.start []); reflexivity.
Defined.

Lemma fallback_labels_are_words_witness :
  exists labels : list string,
    extract_labels_from_lex (Sim.search_services Scenario.script)
      (JStr "Show me  photos with Dog and dog") (Sim.start, []) =
      (Ok labels, (Sim.start, [EvRecognizeText "Show me  photos with Dog and dog"])) /\
    Forall (fun t => nonempty t = true /\ all_chars visible t = true /\
                     ~ In t ["show"; "me"; "photos"; "with"; "and"; "in"]) labels.
Proof.
  apply (fallback_labels_are_words (Sim.search_services Scenario.script)
           "Show me  photos with Dog and dog" ServiceError Sim.start Sim.start []).
  reflexivity.
Defined.

(** ** The handler *)

Section Handler.
Context {W : Type} (svc : Services W).
Variables (ES_ENDPOINT ES_INDEX : string).
Variable json_loads : string -> result json.
Variable str : json -> string.

#[local] Abbreviation send := (sign_and_send_es svc ES_ENDPOINT json_loads).
#[local] Abbreviation search := (run_search svc ES_ENDPOINT ES_INDEX json_loads str).
#[local] Abbreviation handle := (lambda_handler svc ES_ENDPOINT ES_INDEX json_loads str).

(** X13: A [q] on the event itself decides alone: when it is null, empty,
    zero or false the answer is 400 and nothing is called, whatever
    [queryStringParameters] holds. *)
Theorem falsy_direct_query_is_bad_request (event : list (string * json)) (q : json)
    (s : state W) :
  dict_get "q" event = Some q ->
  truthy q = false ->
  handle (JObj event) s =
  (Ok {| statusCode := 400;
         body := JObj [("error", JStr "Missing query parameter q")];
         headers := [("Access-Control-Allow-Origin", "*")] |}, s).
Proof.
  intros Hq Hfalse. unfold lambda_handler, bind, lift, query_of, contains, has_key, getitem.
  rewrite Hq. cbn [rbind]. now rewrite Hfalse.
Qed.

(** X14: A [q] that is not a string but counts as true (a number, a list, an
    object) is not answered at all: [query.lower()] raises outside any
    [try], before anything is called. *)
Theorem non_text_query_raises (event q : json) (s : state W) :
  query_of event = Ok q ->
  truthy q = true ->
  (forall text, q <> JStr text) ->
  handle event s = (Raise AttributeError, s).
Proof.
  intros Hq Ht Hnot. unfold lambda_handler, bind at 1, lift. rewrite Hq, Ht. cbn [negb].
  unfold bind. now rewrite (extract_labels_from_lex_not_text svc q s Hnot).
Qed.

Lemma run_search_calls (labels : list string) (w : W) (tr : list Event) :
  exists (resp : response) (w' : W) (calls : list Event),
    search labels (w, tr) = (Ok resp, (w', (tr ++ calls)%list)) /\
    (calls = [EvCredentials "POST" (search_url ES_ENDPOINT ES_INDEX)] \/
     calls = [EvCredentials "POST" (search_url ES_ENDPOINT ES_INDEX);
              EvUrlopen "POST" (search_url ES_ENDPOINT ES_INDEX) (query_body labels)]) /\
    headers resp = cors /\
    (statusCode resp = 200%Z \/ statusCode resp = 500%Z).
Proof.
  unfold run_search, try_except, sign_and_send_es, bind, call, lift, ret, search_url.
  cbn [fst snd].
  destruct (sigv4_headers svc _ _ _ w) as [[hs|e] w1]; cbn [fst snd].
  - destruct (urlopen svc _ _ _ hs w1) as [[answer|e] w2]; cbn [fst snd].
    + rewrite <- app_assoc. cbn [app].
      destruct (json_loads answer) as [es_response|e].
      * destruct (search_results str es_response) as [results|e];
          eexists; eexists; eexists; (split; [reflexivity|]); cbn; tauto.
      * eexists; eexists; eexists; (split; [reflexivity|]); cbn; tauto.
    + rewrite <- app_assoc. cbn [app].
      eexists; eexists; eexists; (split; [reflexivity|]); cbn; tauto.
  - eexists; eexists; eexists; (split; [reflexivity|]); cbn; tauto.
Qed.

(** X15: A request makes at most one call to Lex and at most one request to
    the index, in this order; the index is asked only with [POST] on
    the search URL, and never without a preceding Lex call. *)
Theorem handler_call_discipline (event : json) (w : W) (tr : list Event) :
  exists calls : list Event,
    snd (snd (handle event (w, tr))) = (tr ++ calls)%list /\
    handler_calls ES_ENDPOINT ES_INDEX calls.
Proof.
  unfold lambda_handler, bind at 1, lift.
  destruct (query_of event) as [q|e];
    [|exists []; rewrite app_nil_r; split; [reflexivity | constructor]].
  destruct (truthy q) eqn:Ht; cbn [negb];
    [|exists []; rewrite app_nil_r; split; [reflexivity | constructor]].
  destruct q as [| | |text| |];
    try (exists []; rewrite app_nil_r; split; [reflexivity | constructor]).
  unfold bind. rewrite extract_labels_from_lex_run.
  destruct (labels_for text _) as [|l ls] eqn:El.
  - exists [EvRecognizeText text]. split; [reflexivity | constructor].
  - destruct (run_search_calls (l :: ls) (snd (recognize_text svc text w))
                (tr ++ [EvRecognizeText text])%list)
      as (resp & w' & calls & Hrun & Hcalls & _).
    rewrite Hrun. cbn [snd]. rewrite <- app_assoc.
    eexists. split; [reflexivity|].
    destruct Hcalls as [-> | ->]; cbn [app]; constructor.
Qed.

(** X16: Every answer of the handler carries the permissive cross-origin
    header and one of the statuses 200, 400 and 500.  The handler raises
    only when [q] cannot be read from the event or is a true value that
    is not a string. *)
Theorem handler_outcomes (event : json) (s : state W) :
  match fst (handle event s) with
  | Ok resp =>
      headers resp = [("Access-Control-Allow-Origin", "*")] /\
      (statusCode resp = 200%Z \/ statusCode resp = 400%Z \/ statusCode resp = 500%Z)
  | Raise e =>
      query_of event = Raise e \/
      exists q, query_of event = Ok q /\ truthy q = true /\
                (forall text, q <> JStr text) /\ e = AttributeError
  end.
Proof.
  unfold lambda_handler, bind at 1, lift.
  destruct (query_of event) as [q|e] eqn:Hq; [|now left].
  destruct (truthy q) eqn:Ht; cbn [negb]; [|cbn; tauto].
  destruct q as [| | |text| |];
    try (cbn; right; eexists; (split; [reflexivity|]); now repeat split).
  destruct s as [w tr]. unfold bind. rewrite extract_labels_from_lex_run.
  destruct (labels_for text _) as [|l ls]; [cbn; tauto|].
  destruct (run_search_calls (l :: ls) (snd (recognize_text svc text w))
              (tr ++ [EvRecognizeText text])%list)
    as (resp & w' & calls & Hrun & _ & Hh & Hs).
  rewrite Hrun. cbn [fst]. split; [exact Hh | tauto].
Qed.

(** ** Hits *)

(** X17: One hit that cannot be rendered (no [_source], a missing field, a
    key that is not a string) turns the whole answer into the 500
    response: the hits that could be rendered are not returned. *)
Theorem one_bad_hit_is_500 (labels : list string) (d inner : list (string * json))
    (hits : list json) (hit : json) (s s1 : state W) :
  send "POST" (es_path ES_INDEX) (query_body labels) s = (Ok (JObj d), s1) ->
  dict_get "hits" d = Some (JObj inner) ->
  dict_get "hits" inner = Some (JArr hits) ->
  In hit hits ->
  (forall r, hit_result str hit <> Ok r) ->
  search labels s =
  (Ok {| statusCode := 500;
         body := JObj [("results", JArr [])];
         headers := [("Access-Control-Allow-Origin", "*")] |}, s1).
Proof.
  intros Hsend Hd Hinner Hin Hbad.
  destruct (IndexMore.rmap_raises (hit_result str) hits hit Hin Hbad) as [e He].
  apply malformed_hits_are_500 with (JObj d) e; [exact Hsend|].
  unfold search_results, get. rewrite Hd. cbn [rbind]. rewrite Hinner. exact He.
Qed.

(** X18: An answer of the index service without [hits] is read as no hit:
    status 200 with an empty result list. *)
Theorem missing_hits_is_empty_result (labels : list string) (d : list (string * json))
    (s s1 : state W) :
  send "POST" (es_path ES_INDEX) (query_body labels) s = (Ok (JObj d), s1) ->
  dict_get "hits" d = None ->
  search labels s =
  (Ok {| statusCode := 200;
         body := JObj [("results", JArr [])];
         headers := [("Access-Control-Allow-Origin", "*")] |}, s1).
Proof.
  intros Hsend Hd. unfold run_search, try_except, bind, lift. rewrite Hsend.
  unfold search_results, get. now rewrite Hd.
Qed.

(** X19: Documents as the ingestion function writes them are always rendered:
    one result per hit, in the order of the hits, with key, bucket and
    labels as stored and the URL of the object; the time stamp is not
    shown. *)
Theorem ingested_documents_are_rendered (photos : list (string * string * string * list string)) :
  search_results str
    (hits_response
       (map (fun p => match p with
                      | (key, bucket, created, labels) =>
                          hit_of (IndexPhotos.document key bucket created labels)
                      end) photos)) =
  Ok (map (fun p => match p with
                    | (key, bucket, created, labels) => public_result key bucket (strs labels)
                    end) photos).
Proof.
  unfold search_results, hits_response. cbn [get dict_get String.eqb Ascii.eqb Bool.eqb rbind iter].
  induction photos as [|[[[key bucket] created] labels] rest IH]; [reflexivity|].
  cbn [map rmap]. rewrite IH. reflexivity.
Qed.

End Handler.

Lemma falsy_direct_query_is_bad_request_witness :
  lambda_handler (Sim.search_services Scenario.script) Scenario.endpoint "photos"
    Scenario.loads Scenario.str
    (JObj [("q", JNull); ("queryStringParameters", JObj [("q", JStr "dog")])])
    (Sim.start, []) =
  (Ok {| statusCode := 400;
         body := JObj [("error", JStr "Missing query parameter q")];
         headers := [("Access-Control-Allow-Origin", "*")] |}, (Sim.start, [])).
Proof.
  apply (falsy_direct_query_is_bad_request (Sim.search_services Scenario.script)
           Scenario.endpoint "photos" Scenario.loads Scenario.str
           [("q", JNull); ("queryStringParameters", JObj [("q", JStr "dog")])] JNull
           (Sim.start, [])); reflexivity.
Defined.

Lemma non_text_query_raises_witness :
  lambda_handler (Sim.search_services Scenario.script) Scenario.endpoint "photos"
    Scenario.loads Scenario.str (JObj [("q", JNum 5)]) (Sim.start, []) =
  (Raise AttributeError, (Sim.start, [])).
Proof.
  apply (non_text_query_raises (Sim.search_services Scenario.script)
           Scenario.endpoint "photos" Scenario.loads Scenario.str
           (JObj [("q", JNum 5)]) (JNum 5) (Sim.start, [])).
  - reflexivity.
  - reflexivity.
  - intros text. discriminate.
Defined.

Lemma one_bad_hit_is_500_witness :
  run_search (Sim.search_services Cases.hits_script) Scenario.endpoint "photos"
    Cases.loads_hits Scenario.str ["dog"] (Sim.start, []) =
  (Ok {| statusCode := 500;
         body := JObj [("results", JArr [])];
         headers := [("Access-Control-Allow-Origin", "*")] |},
   (Sim.start,
    [EvCredentials "POST" "https://search.example/photos/_search";
     EvUrlopen "POST" "https://search.example/photos/_search" (query_body ["dog"])])).
Proof.
  apply (one_bad_hit_is_500 (Sim.search_services Cases.hits_script) Scenario.endpoint
           "photos" Cases.loads_hits Scenario.str ["dog"]
           [("hits", JObj [("hits", JArr [Cases.good_hit; Cases.bad_hit])])]
           [("hits", JArr [Cases.good_hit; Cases.bad_hit])]
           [Cases.good_hit; Cases.bad_hit] Cases.bad_hit (Sim.start, [])).
  - reflexivity.
  - reflexivity.
  - reflexivity.
  - right. left. reflexivity.
  - intros r. discriminate.
Defined.

Lemma missing_hits_is_empty_result_witness :
  run_search (Sim.search_services Scenario.answering_script) Scenario.endpoint "photos"
    Scenario.loads Scenario.str ["dog"] (Sim.start, []) =
  (Ok {| statusCode := 200;
         body := JObj [("results", JArr [])];
         headers := [("Access-Control-Allow-Origin", "*")] |},
   (Sim.start,
    [EvCredentials "POST" "https://search.example/photos/_search";
     EvUrlopen "POST" "https://search.example/photos/_search" (query_body ["dog"])])).
Proof.
  apply (missing_hits_is_empty_result (Sim.search_services Scenario.answering_script)
           Scenario.endpoint "photos" Scenario.loads Scenario.str ["dog"] []
           (Sim.start, [])); reflexivity.
Defined.

End SearchMore.
